(** * MiniKit bridge: capability negotiation, event bus and command correlation

    A shallow embedding of [MiniKit] (the latest snapshot of
    [packages/core/minikit.ts], the one with eleven commands and the
    verify-action transform) as state-passing functions over an explicit
    record of the class's static fields, the part of [window] it reads, and
    the observable effects (console, transport, calls of caller handlers).

    Asynchrony is explicit: an operation that awaits a promise of an external
    collaborator (profile lookup, proof re-encoding) parks its continuation in
    [pending]; [settle] runs one parked continuation, at a moment of the
    environment's choosing, so that other events may be delivered in between. *)

From stdpp Require Import base option list strings gmap fin_maps.

Local Open Scope string_scope.
Local Open Scope Z_scope.
Local Open Scope list_scope.

(** ** Data model *)

(** [types/commands.ts], [enum Command]; [ShareFiles] is the entry the
    snapshot of [minikit.ts] under study refers to as [Command.ShareFiles]. *)
Inductive Command :=
  | Verify | Pay | WalletAuth | SendTransaction | SignMessage | SignTypedData
  | ShareContacts | RequestPermission | GetPermissions | SendHapticFeedback
  | ShareFiles.

(** The string value of each enum member: the key under which the command is
    stored in the class's tables and the name looked up in the host's
    capability descriptor. *)
Definition commandName (c : Command) : string :=
  match c with
  | Verify => "verify"
  | Pay => "pay"
  | WalletAuth => "wallet-auth"
  | SendTransaction => "send-transaction"
  | SignMessage => "sign-message"
  | SignTypedData => "sign-typed-data"
  | ShareContacts => "share-contacts"
  | RequestPermission => "request-permission"
  | GetPermissions => "get-permissions"
  | SendHapticFeedback => "send-haptic-feedback"
  | ShareFiles => "share-files"
  end.

Definition allCommands : list Command :=
  [Verify; Pay; WalletAuth; SendTransaction; SignMessage; SignTypedData;
   ShareContacts; RequestPermission; GetPermissions; SendHapticFeedback;
   ShareFiles].

(** [types/responses], [enum ResponseEvent]: one topic per command. *)
Inductive ResponseEvent :=
  | MiniAppVerifyAction | MiniAppPayment | MiniAppWalletAuth
  | MiniAppSendTransaction | MiniAppSignMessage | MiniAppSignTypedData
  | MiniAppShareContacts | MiniAppRequestPermission | MiniAppGetPermissions
  | MiniAppSendHapticFeedback | MiniAppShareFiles.

Definition allEvents : list ResponseEvent :=
  [MiniAppVerifyAction; MiniAppPayment; MiniAppWalletAuth;
   MiniAppSendTransaction; MiniAppSignMessage; MiniAppSignTypedData;
   MiniAppShareContacts; MiniAppRequestPermission; MiniAppGetPermissions;
   MiniAppSendHapticFeedback; MiniAppShareFiles].

#[global] Instance ResponseEvent_eq_dec : EqDecision ResponseEvent.
Proof. solve_decision. Defined.

Definition ResponseEvent_code (e : ResponseEvent) : nat :=
  match e with
  | MiniAppVerifyAction => 0 | MiniAppPayment => 1 | MiniAppWalletAuth => 2
  | MiniAppSendTransaction => 3 | MiniAppSignMessage => 4
  | MiniAppSignTypedData => 5 | MiniAppShareContacts => 6
  | MiniAppRequestPermission => 7 | MiniAppGetPermissions => 8
  | MiniAppSendHapticFeedback => 9 | MiniAppShareFiles => 10
  end%nat.

Definition ResponseEvent_decode (n : nat) : ResponseEvent :=
  nth n allEvents MiniAppShareFiles.

#[global] Instance ResponseEvent_countable : Countable ResponseEvent.
Proof.
  refine (inj_countable' ResponseEvent_code ResponseEvent_decode _).
  intros e. destruct e; reflexivity.
Defined.

(** [VerificationLevel] of the identity kit: [Orb] is the strongest level. *)
Inductive VerificationLevel := Orb | Device.

Inductive Status := success | error.

(** [types/payment], [enum Network]. *)
Inductive Network := Optimism | WorldChain.

(** An object the bridge passes on without looking inside. *)
Definition Json := string.

(** An inbound event payload: the fields the bridge reads or writes
    ([status], [verification_level], [proof], [address]) and the remaining
    command-specific fields, which it never touches. *)
Record EventPayload := {
  status : Status;
  verification_level : VerificationLevel;
  proof : string;
  address : string;
  rest : Json
}.

(** [payload.proof = c].  Payloads are values here: the assignment is
    modelled by handing on the updated record.  The bridge keeps no
    reference to a payload it has handed on, except in the promise of
    [awaitCommand], whose value only [commandsAsync] reads, once. *)
Definition set_proof (c : string) (p : EventPayload) : EventPayload :=
  {| status := status p; verification_level := verification_level p;
     proof := c; address := address p; rest := rest p |}.

(** Inputs of the command entry points ([types/commands.ts]). *)
Record VerifyCommandInput := {
  vi_action : string;
  vi_signal : option string;
  vi_verification_level : option VerificationLevel
}.

Record PayCommandInput := {
  pay_fields : Json;            (* reference, to, tokens, description *)
  pay_network : option Network
}.

Record WalletAuthInput := {
  wa_nonce : string;
  wa_statement : option string;
  wa_requestId : option string;
  wa_expirationTime : option string;
  wa_notBefore : option string
}.

(** The argument of [generateSiweMessage] as built by [commands.walletAuth]. *)
Record SiweMessage := {
  scheme : string;
  domain : string;
  statement : option string;
  uri : string;
  siwe_version : string;
  chain_id : Z;
  nonce : string;
  issued_at : string;
  expiration_time : option string;
  not_before : option string;
  request_id : option string
}.

(** What a command entry point returns (and sends as the envelope payload). *)
Inductive CommandReturnPayload :=
  | VerifyCommandPayload (action signal : string)
      (level : VerificationLevel) (timestamp : string)
  | PayCommandPayload (fields : Json) (network : Network)
  | WalletAuthPayload (siweMessage : string)
  | InputPayload (payload : Json)      (* the caller's object, passed through *)
  | EmptyPayload                       (* {} *)
  | StatusSent.                        (* { status: 'sent' } *)

(** [WebViewBasePayload], and the [init] message of [sendInit]. *)
Inductive Envelope :=
  | InitMessage (version : Z)
  | CommandMessage (command : Command) (version : Z)
      (payload : CommandReturnPayload).

(** One entry of [window.WorldApp.supported_commands]. *)
Record SupportedCommand := {
  name : string;
  supported_versions : list Z
}.

Record WorldApp := {
  supported_commands : list SupportedCommand;
  is_optional_analytics : bool;
  device_os : string;
  world_app_version : Z
}.

(** The part of [window] the bridge reads: [window.MiniKit] (only its
    truthiness matters) and [window.WorldApp]. *)
Record Window := {
  window_MiniKit : bool;
  window_WorldApp : option WorldApp
}.

(** [types/user], [type User]. *)
Record User := {
  walletAddress : option string;
  username : option string;
  profilePictureUrl : option string;
  permissions : option (bool * bool);       (* notifications, contacts *)
  optedIntoOptionalAnalytics : option bool;
  worldAppVersion : option Z;
  deviceOS : option string
}.

Definition emptyUser : User :=
  {| walletAddress := None; username := None; profilePictureUrl := None;
     permissions := None; optedIntoOptionalAnalytics := None; worldAppVersion := None;
     deviceOS := None |}.

(** The answer of [getUserProfile]. *)
Record UserProfile := {
  profile_username : option string;
  profile_picture_url : option string
}.

Inductive MiniKitInstallErrorCodes :=
  | Unknown | AlreadyInstalled | OutsideOfWorldApp | AppOutOfDate.

(** [MiniKitInstallReturnType]; the error message is a function of the code. *)
Inductive MiniKitInstallReturnType :=
  | InstallSuccess
  | InstallFailure (errorCode : MiniKitInstallErrorCodes).

(** Handlers are closures in the source; here they are the finitely many
    shapes of closure the bridge itself builds, over handlers supplied by the
    calling code, which are opaque and identified by a number. *)
Inductive Handler :=
  | NoopHandler                          (* the initial [() => {}] *)
  | CallerHandler (id : nat)             (* a handler of the calling code *)
  | HandleAndUnsubscribe (event : ResponseEvent) (promise : nat)
                                         (* the closure of [awaitCommand] *)
  | WalletAuthWrapped (originalHandler : Handler)
  | VerifyActionWrapped (originalHandler : Handler).

(** [{ commandPayload, finalPayload }] *)
Record Response := {
  commandPayload : option CommandReturnPayload;
  finalPayload : EventPayload
}.

Inductive PromiseState :=
  | PromisePending
  | PromiseResolved (value : Response)
  | PromiseRejected.

(** One [new Promise]: its state, how often its [resolve] function has been
    called, and, for the promise of [awaitCommand], the closure variable
    [let commandPayload] that its handler reads when the event arrives. *)
Record PromiseCell := {
  promise_state : PromiseState;
  resolve_calls : nat;
  command_payload_slot : option CommandReturnPayload
}.

(** A continuation waiting for a promise to settle. *)
Inductive Continuation :=
  | AwaitUserByAddress (payload : EventPayload) (originalHandler : Handler)
      (* [await MiniKit.getUserByAddress(payload.address)] in the wallet-auth
         wrapper *)
  | ThenCompressed (payload : EventPayload) (originalHandler : Handler)
      (* [compressAndPadProof(payload.proof).then(...)] in the verify wrapper *)
  | AwaitCommandResponse (command : Command) (inner outer : nat)
      (* [await MiniKit.awaitCommand(...)] in a [commandsAsync] entry *)
  | AwaitCompressed (response : Response) (outer : nat).
      (* [await compressAndPadProof(...)] in [commandsAsync.verify] *)

Inductive LogEntry :=
  | ErrorNoHandler (event : ResponseEvent) (payload : EventPayload)
  | ErrorCommandNotSupported (commandName : string)
  | WarnAppIdNotProvided
  | ErrorInstallUnknown
  | ErrorCommandUnavailable (entry : string)
  | ErrorWalletAuthInput
  | ErrorCurrentUrl
  | ErrorFetchUserProfile.

(** The static fields of [MiniKit], its environment, and what it did. *)
Record State := {
  window : option Window;               (* [None]: [typeof window === 'undefined'] *)
  isCommandAvailable : gmap string bool;
  listeners : gmap ResponseEvent Handler;
  appId : option string;
  user : User;
  promises : list PromiseCell;
  pending : list Continuation;
  console : list LogEntry;
  sent : list Envelope;                 (* objects handed to [sendWebviewEvent] *)
  calls : list (nat * EventPayload)     (* calls of caller handlers, in order *)
}.

(** ** External collaborators

    Helpers the bridge imports and that are not part of the class: they are
    parameters of the development.  A promise-returning helper is a partial
    function: [None] stands for a rejected promise. *)
Class Collaborators := {
  compressAndPadProof : string -> option string;
  getUserProfile : string -> option UserProfile;
  encodeAction : string -> string;
  generateSignal : option string -> string;          (* [.digest] *)
  validatePaymentPayload : PayCommandInput -> bool;
  validateWalletAuthCommandInput : WalletAuthInput -> bool;   (* [.valid] *)
  validateSendTransactionPayload : Json -> Json;
  generateSiweMessage : SiweMessage -> string;
  toISOString_now : string;                          (* [new Date().toISOString()] *)
  location_href : string;
  location_host : string;
  url_protocol : string -> option string;
      (* [new URL(href).protocol.split(':')[0]]; [None] when [new URL] throws *)
  transport_throws : Envelope -> bool
      (* whether the transport primitive throws on this object *)
}.

(** ** Field updates *)

Definition set_window (w : option Window) (s : State) : State :=
  {| window := w; isCommandAvailable := isCommandAvailable s;
     listeners := listeners s; appId := appId s; user := user s;
     promises := promises s; pending := pending s; console := console s;
     sent := sent s; calls := calls s |}.

Definition set_isCommandAvailable (t : gmap string bool) (s : State) : State :=
  {| window := window s; isCommandAvailable := t;
     listeners := listeners s; appId := appId s; user := user s;
     promises := promises s; pending := pending s; console := console s;
     sent := sent s; calls := calls s |}.

Definition set_listeners (l : gmap ResponseEvent Handler) (s : State) : State :=
  {| window := window s; isCommandAvailable := isCommandAvailable s;
     listeners := l; appId := appId s; user := user s;
     promises := promises s; pending := pending s; console := console s;
     sent := sent s; calls := calls s |}.

Definition set_appId (a : option string) (s : State) : State :=
  {| window := window s; isCommandAvailable := isCommandAvailable s;
     listeners := listeners s; appId := a; user := user s;
     promises := promises s; pending := pending s; console := console s;
     sent := sent s; calls := calls s |}.

Definition set_user (u : User) (s : State) : State :=
  {| window := window s; isCommandAvailable := isCommandAvailable s;
     listeners := listeners s; appId := appId s; user := u;
     promises := promises s; pending := pending s; console := console s;
     sent := sent s; calls := calls s |}.

Definition set_promises (ps : list PromiseCell) (s : State) : State :=
  {| window := window s; isCommandAvailable := isCommandAvailable s;
     listeners := listeners s; appId := appId s; user := user s;
     promises := ps; pending := pending s; console := console s;
     sent := sent s; calls := calls s |}.

Definition set_pending (ts : list Continuation) (s : State) : State :=
  {| window := window s; isCommandAvailable := isCommandAvailable s;
     listeners := listeners s; appId := appId s; user := user s;
     promises := promises s; pending := ts; console := console s;
     sent := sent s; calls := calls s |}.

(** [console.error] / [console.warn] *)
Definition log (e : LogEntry) (s : State) : State :=
  {| window := window s; isCommandAvailable := isCommandAvailable s;
     listeners := listeners s; appId := appId s; user := user s;
     promises := promises s; pending := pending s;
     console := console s ++ [e];
     sent := sent s; calls := calls s |}.

Definition record_sent (e : Envelope) (s : State) : State :=
  {| window := window s; isCommandAvailable := isCommandAvailable s;
     listeners := listeners s; appId := appId s; user := user s;
     promises := promises s; pending := pending s; console := console s;
     sent := sent s ++ [e]; calls := calls s |}.

Definition record_call (id : nat) (p : EventPayload) (s : State) : State :=
  {| window := window s; isCommandAvailable := isCommandAvailable s;
     listeners := listeners s; appId := appId s; user := user s;
     promises := promises s; pending := pending s; console := console s;
     sent := sent s; calls := calls s ++ [(id, p)] |}.

(** The class as loaded: every table holds its initial literal. *)
Definition initialState (w : option Window) : State :=
  {| window := w;
     isCommandAvailable :=
       list_to_map (map (fun c => (commandName c, false)) allCommands);
     listeners := list_to_map (map (fun e => (e, NoopHandler)) allEvents);
     appId := None; user := emptyUser; promises := []; pending := [];
     console := []; sent := []; calls := [] |}.

Section MiniKit.
Context `{Collaborators}.

(** ** Transport *)

(** Modelled from the spec: [sendWebviewEvent] of
    [helpers/send-webview-event], the opaque primitive that posts an object
    to the host.  It either records the object as sent or throws ([None]). *)
Definition sendWebviewEvent (e : Envelope) (s : State) : option State :=
  if transport_throws e then None else Some (record_sent e s).

Definition sendMiniKitEvent (e : Envelope) (s : State) : option State :=
  sendWebviewEvent e s.

Definition MINIKIT_VERSION : Z := 1.

Definition sendInit (s : State) : option State :=
  sendWebviewEvent (InitMessage MINIKIT_VERSION) s.

(** ** Negotiation *)

(** [miniKitCommandVersion]: the version the bridge expects of each command. *)
Definition miniKitCommandVersion (c : Command) : Z :=
  match c with
  | Verify => 1 | Pay => 1 | WalletAuth => 1 | SendTransaction => 1
  | SignMessage => 1 | SignTypedData => 1 | ShareContacts => 1
  | RequestPermission => 1 | GetPermissions => 1 | SendHapticFeedback => 1
  | ShareFiles => 1
  end.

(** [Object.entries(this.miniKitCommandVersion)]: the rows of the literal, in
    the order they are written. *)
Definition miniKitCommandVersion_entries : list (string * Z) :=
  map (fun c => (commandName c, miniKitCommandVersion c)) allCommands.

(** [Array.prototype.every] with a callback that has effects: the callback
    runs on the elements in order and stops after the first one for which it
    returns [false]. *)
Fixpoint every {A : Type} (callback : A -> State -> bool * State)
    (l : list A) (s : State) : bool * State :=
  match l with
  | [] => (true, s)
  | x :: l' =>
      let '(ok, s') := callback x s in
      if ok then every callback l' s' else (false, s')
  end.

Definition includes (version : Z) (versions : list Z) : bool :=
  existsb (Z.eqb version) versions.

(** The callback of [commandsValid]. *)
Definition commandValid (worldAppSupportedCommands : list SupportedCommand)
    (entry : string * Z) (s : State) : bool * State :=
  let '(minikitCommandName, version) := entry in
  match find (fun command => String.eqb (name command) minikitCommandName)
             worldAppSupportedCommands with
  | None => (false, log (ErrorCommandNotSupported minikitCommandName) s)
  | Some commandInput =>
      (includes version (supported_versions commandInput),
       set_isCommandAvailable
         (<[minikitCommandName := true]> (isCommandAvailable s)) s)
  end.

Definition commandsValid (worldAppSupportedCommands : list SupportedCommand)
    (s : State) : bool * State :=
  every (commandValid worldAppSupportedCommands) miniKitCommandVersion_entries s.

(** [this.isCommandAvailable[c]] read as a condition: a missing key is falsy. *)
Definition available (c : Command) (s : State) : bool :=
  default false (isCommandAvailable s !! commandName c).

(** The three user properties [install] copies from [window.WorldApp]. *)
Definition set_user_properties (app : WorldApp) (s : State) : State :=
  set_user
    {| walletAddress := walletAddress (user s); username := username (user s);
       profilePictureUrl := profilePictureUrl (user s);
       permissions := permissions (user s);
       optedIntoOptionalAnalytics := Some (is_optional_analytics app);
       worldAppVersion := Some (world_app_version app);
       deviceOS := Some (device_os app) |} s.

Definition install (appId : option string) (s : State)
    : MiniKitInstallReturnType * State :=
  match window s with
  | None => (InstallFailure AlreadyInstalled, s)
  | Some w =>
      if window_MiniKit w then (InstallFailure AlreadyInstalled, s)
      else
        let s1 :=
          match appId with
          | None | Some "" => log WarnAppIdNotProvided s
          | Some a => set_appId (Some a) s
          end in
        match window_WorldApp w with
        | None => (InstallFailure OutsideOfWorldApp, s1)
        | Some app =>
            let s2 := set_user_properties app s1 in
            let s3 :=
              set_window (Some {| window_MiniKit := true;
                                  window_WorldApp := Some app |}) s2 in
            match sendInit s3 with
            | None => (InstallFailure Unknown, log ErrorInstallUnknown s3)
            | Some s4 =>
                let '(valid, s5) := commandsValid (supported_commands app) s4 in
                if valid then (InstallSuccess, set_user_properties app s5)
                else (InstallFailure AppOutOfDate, s5)
            end
        end
  end.

(** ** Command entry points *)

(** How a call of bridge code ends. *)
Inductive Completion :=
  | Returned (result : option CommandReturnPayload)   (* [None] is [null] *)
  | Thrown.

(** The common tail of the entries: send the envelope, return [result]. *)
Definition send_and_return (c : Command) (payload result : CommandReturnPayload)
    (s : State) : Completion * State :=
  match sendMiniKitEvent (CommandMessage c (miniKitCommandVersion c) payload) s with
  | None => (Thrown, s)
  | Some s' => (Returned (Some result), s')
  end.

(** The guard each entry opens with:
    [typeof window === 'undefined' || !this.isCommandAvailable[flag]]. *)
Definition unavailable (flag : Command) (s : State) : bool :=
  match window s with
  | None => true
  | Some _ => negb (available flag s)
  end.

Definition commands_verify (payload : VerifyCommandInput) (s : State)
    : Completion * State :=
  if unavailable Verify s then
    (Returned None, log (ErrorCommandUnavailable "verify") s)
  else
    let eventPayload :=
      VerifyCommandPayload (encodeAction (vi_action payload))
        (generateSignal (vi_signal payload))
        (default Orb (vi_verification_level payload))
        toISOString_now in
    send_and_return Verify eventPayload eventPayload s.

Definition commands_pay (payload : PayCommandInput) (s : State)
    : Completion * State :=
  if unavailable Pay s then
    (Returned None, log (ErrorCommandUnavailable "pay") s)
  else if negb (validatePaymentPayload payload) then (Returned None, s)
  else
    let eventPayload := PayCommandPayload (pay_fields payload) WorldChain in
    send_and_return Pay eventPayload eventPayload s.

Definition commands_walletAuth (payload : WalletAuthInput) (s : State)
    : Completion * State :=
  if unavailable WalletAuth s then
    (Returned None, log (ErrorCommandUnavailable "walletAuth") s)
  else if negb (validateWalletAuthCommandInput payload) then
    (Returned None, log ErrorWalletAuthInput s)
  else
    match url_protocol location_href with
    | None => (Returned None, log ErrorCurrentUrl s)
    | Some protocol =>
        let siweMessage :=
          generateSiweMessage
            {| scheme := protocol; domain := location_host;
               statement := wa_statement payload; uri := location_href;
               siwe_version := "1"; chain_id := 480;
               nonce := wa_nonce payload; issued_at := toISOString_now;
               expiration_time := wa_expirationTime payload;
               not_before := wa_notBefore payload;
               request_id := wa_requestId payload |} in
        let walletAuthPayload := WalletAuthPayload siweMessage in
        send_and_return WalletAuth walletAuthPayload walletAuthPayload s
    end.

Definition commands_sendTransaction (payload : Json) (s : State)
    : Completion * State :=
  if unavailable SendTransaction s then
    (Returned None, log (ErrorCommandUnavailable "sendTransaction") s)
  else
    let validatedPayload := InputPayload (validateSendTransactionPayload payload) in
    send_and_return SendTransaction validatedPayload validatedPayload s.

Definition commands_signMessage (payload : Json) (s : State)
    : Completion * State :=
  if unavailable SignMessage s then
    (Returned None, log (ErrorCommandUnavailable "signMessage") s)
  else send_and_return SignMessage (InputPayload payload) (InputPayload payload) s.

Definition commands_signTypedData (payload : Json) (s : State)
    : Completion * State :=
  if unavailable SignTypedData s then
    (Returned None, log (ErrorCommandUnavailable "signTypedData") s)
  else
    send_and_return SignTypedData (InputPayload payload) (InputPayload payload) s.

(** The guard of this entry reads the flag of [Command.SignTypedData]. *)
Definition commands_shareContacts (payload : Json) (s : State)
    : Completion * State :=
  if unavailable SignTypedData s then
    (Returned None, log (ErrorCommandUnavailable "shareContacts") s)
  else
    send_and_return ShareContacts (InputPayload payload) (InputPayload payload) s.

Definition commands_requestPermission (payload : Json) (s : State)
    : Completion * State :=
  if unavailable RequestPermission s then
    (Returned None, log (ErrorCommandUnavailable "requestPermission") s)
  else
    send_and_return RequestPermission (InputPayload payload)
      (InputPayload payload) s.

Definition commands_getPermissions (s : State) : Completion * State :=
  if unavailable GetPermissions s then
    (Returned None, log (ErrorCommandUnavailable "getPermissions") s)
  else send_and_return GetPermissions EmptyPayload StatusSent s.

Definition commands_sendHapticFeedback (payload : Json) (s : State)
    : Completion * State :=
  if unavailable SendHapticFeedback s then
    (Returned None, log (ErrorCommandUnavailable "sendHapticFeedback") s)
  else
    send_and_return SendHapticFeedback (InputPayload payload)
      (InputPayload payload) s.

Definition commands_shareFiles (payload : Json) (s : State)
    : Completion * State :=
  if unavailable ShareFiles s then
    (Returned None, log (ErrorCommandUnavailable "shareFiles") s)
  else send_and_return ShareFiles (InputPayload payload) (InputPayload payload) s.

(** A call of one entry of [MiniKit.commands], with its argument. *)
Inductive CommandCall :=
  | CallVerify (payload : VerifyCommandInput)
  | CallPay (payload : PayCommandInput)
  | CallWalletAuth (payload : WalletAuthInput)
  | CallSendTransaction (payload : Json)
  | CallSignMessage (payload : Json)
  | CallSignTypedData (payload : Json)
  | CallShareContacts (payload : Json)
  | CallRequestPermission (payload : Json)
  | CallGetPermissions
  | CallSendHapticFeedback (payload : Json)
  | CallShareFiles (payload : Json).

Definition commands (call : CommandCall) : State -> Completion * State :=
  match call with
  | CallVerify payload => commands_verify payload
  | CallPay payload => commands_pay payload
  | CallWalletAuth payload => commands_walletAuth payload
  | CallSendTransaction payload => commands_sendTransaction payload
  | CallSignMessage payload => commands_signMessage payload
  | CallSignTypedData payload => commands_signTypedData payload
  | CallShareContacts payload => commands_shareContacts payload
  | CallRequestPermission payload => commands_requestPermission payload
  | CallGetPermissions => commands_getPermissions
  | CallSendHapticFeedback payload => commands_sendHapticFeedback payload
  | CallShareFiles payload => commands_shareFiles payload
  end.

(** The command an entry is the entry of. *)
Definition commandOf (call : CommandCall) : Command :=
  match call with
  | CallVerify _ => Verify
  | CallPay _ => Pay
  | CallWalletAuth _ => WalletAuth
  | CallSendTransaction _ => SendTransaction
  | CallSignMessage _ => SignMessage
  | CallSignTypedData _ => SignTypedData
  | CallShareContacts _ => ShareContacts
  | CallRequestPermission _ => RequestPermission
  | CallGetPermissions => GetPermissions
  | CallSendHapticFeedback _ => SendHapticFeedback
  | CallShareFiles _ => ShareFiles
  end.

(** The flag the guard of an entry reads. *)
Definition guardFlag (call : CommandCall) : Command :=
  match call with
  | CallShareContacts _ => SignTypedData
  | _ => commandOf call
  end.

Definition call_guard (call : CommandCall) (s : State) : bool :=
  unavailable (guardFlag call) s.

(** The topic on which the host answers a command. *)
Definition responseEventOf (c : Command) : ResponseEvent :=
  match c with
  | Verify => MiniAppVerifyAction
  | Pay => MiniAppPayment
  | WalletAuth => MiniAppWalletAuth
  | SendTransaction => MiniAppSendTransaction
  | SignMessage => MiniAppSignMessage
  | SignTypedData => MiniAppSignTypedData
  | ShareContacts => MiniAppShareContacts
  | RequestPermission => MiniAppRequestPermission
  | GetPermissions => MiniAppGetPermissions
  | SendHapticFeedback => MiniAppSendHapticFeedback
  | ShareFiles => MiniAppShareFiles
  end.

(** ** Promises *)

Definition new_promise (s : State) : nat * State :=
  (length (promises s),
   set_promises
     (promises s ++ [{| promise_state := PromisePending; resolve_calls := 0;
                        command_payload_slot := None |}]) s).

(** The cell of a promise after its [resolve] has been called with [v]: the
    call settles a pending promise and has no effect on a settled one; it is
    counted either way. *)
Definition resolved_cell (cell : PromiseCell) (v : Response) : PromiseCell :=
  {| promise_state :=
       match promise_state cell with
       | PromisePending => PromiseResolved v
       | settled => settled
       end;
     resolve_calls := S (resolve_calls cell);
     command_payload_slot := command_payload_slot cell |}.

Definition resolve (pid : nat) (value : Response) (s : State) : State :=
  match promises s !! pid with
  | None => s
  | Some cell => set_promises (<[pid := resolved_cell cell value]> (promises s)) s
  end.

Definition reject (pid : nat) (s : State) : State :=
  match promises s !! pid with
  | None => s
  | Some cell =>
      set_promises
        (<[pid := {| promise_state :=
                       match promise_state cell with
                       | PromisePending => PromiseRejected
                       | settled => settled
                       end;
                     resolve_calls := resolve_calls cell;
                     command_payload_slot := command_payload_slot cell |}]>
           (promises s)) s
  end.

(** The assignment [commandPayload = executor()] inside [awaitCommand]. *)
Definition assign_commandPayload (pid : nat)
    (result : option CommandReturnPayload) (s : State) : State :=
  match promises s !! pid with
  | None => s
  | Some cell =>
      set_promises
        (<[pid := {| promise_state := promise_state cell;
                     resolve_calls := resolve_calls cell;
                     command_payload_slot := result |}]> (promises s)) s
  end.

Definition read_commandPayload (pid : nat) (s : State)
    : option CommandReturnPayload :=
  cell ← promises s !! pid; command_payload_slot cell.

Definition park (t : Continuation) (s : State) : State :=
  set_pending (pending s ++ [t]) s.

(** ** Event bus and response transforms *)

(** What [subscribe] stores for [handler]: the two topics with a transform
    get a wrapper around it, the others the handler itself. *)
Definition wrappedHandler (event : ResponseEvent) (handler : Handler) : Handler :=
  match event with
  | MiniAppWalletAuth => WalletAuthWrapped handler
  | MiniAppVerifyAction => VerifyActionWrapped handler
  | _ => handler
  end.

Definition subscribe (event : ResponseEvent) (handler : Handler) (s : State)
    : State :=
  set_listeners (<[event := wrappedHandler event handler]> (listeners s)) s.

Definition unsubscribe (event : ResponseEvent) (s : State) : State :=
  set_listeners (delete event (listeners s)) s.

Definition set_walletAddress (a : string) (s : State) : State :=
  set_user
    {| walletAddress := Some a; username := username (user s);
       profilePictureUrl := profilePictureUrl (user s);
       permissions := permissions (user s);
       optedIntoOptionalAnalytics := optedIntoOptionalAnalytics (user s);
       worldAppVersion := worldAppVersion (user s);
       deviceOS := deviceOS (user s) |} s.

(** [MiniKit.user = { ...MiniKit.user, ...user }] where [user] is the result
    of [getUserByAddress(a)]: its three own properties overwrite. *)
Definition merge_user (a : string) (profile : UserProfile) (s : State) : State :=
  set_user
    {| walletAddress := Some a; username := profile_username profile;
       profilePictureUrl := profile_picture_url profile;
       permissions := permissions (user s);
       optedIntoOptionalAnalytics := optedIntoOptionalAnalytics (user s);
       worldAppVersion := worldAppVersion (user s);
       deviceOS := deviceOS (user s) |} s.

(** Calling a handler with a payload: the part of the call that runs before
    control returns to the caller of [trigger]. *)
Fixpoint invoke (h : Handler) (payload : EventPayload) (s : State) : State :=
  match h with
  | NoopHandler => s
  | CallerHandler id => record_call id payload s
  | HandleAndUnsubscribe event pid =>
      let s1 := unsubscribe event s in
      resolve pid {| commandPayload := read_commandPayload pid s1;
                     finalPayload := payload |} s1
  | WalletAuthWrapped originalHandler =>
      match status payload with
      | success =>
          park (AwaitUserByAddress payload originalHandler)
            (set_walletAddress (address payload) s)
      | error => invoke originalHandler payload s
      end
  | VerifyActionWrapped originalHandler =>
      match status payload, verification_level payload with
      | success, Orb => park (ThenCompressed payload originalHandler) s
      | _, _ => invoke originalHandler payload s
      end
  end.

Definition trigger (event : ResponseEvent) (payload : EventPayload) (s : State)
    : State :=
  match listeners s !! event with
  | None => log (ErrorNoHandler event payload) s
  | Some h => invoke h payload s
  end.

(** ** Correlation *)

Definition awaitCommand (event : ResponseEvent) (command : Command)
    (executor : State -> Completion * State) (s : State) : nat * State :=
  let '(pid, s1) := new_promise s in
  let s2 := subscribe event (HandleAndUnsubscribe event pid) s1 in
  match executor s2 with
  | (Returned result, s3) => (pid, assign_commandPayload pid result s3)
  | (Thrown, s3) => (pid, reject pid s3)
  end.

(** An entry of [MiniKit.commandsAsync]: the returned promise is [outer]; the
    body runs up to its [await] and parks there. *)
Definition commandsAsync (call : CommandCall) (s : State) : nat * State :=
  let '(outer, s1) := new_promise s in
  let '(inner, s2) :=
    awaitCommand (responseEventOf (commandOf call)) (commandOf call)
      (commands call) s1 in
  (outer, park (AwaitCommandResponse (commandOf call) inner outer) s2).

(** ** Continuations *)

(** Whether the promise a parked continuation waits for has settled.  The
    promises of the collaborators settle whenever the environment says so. *)
Definition ready (t : Continuation) (s : State) : bool :=
  match t with
  | AwaitCommandResponse _ inner _ =>
      match promise_state <$> promises s !! inner with
      | Some PromisePending | None => false
      | Some _ => true
      end
  | _ => true
  end.

(** The code after the [await] or inside the [then]. *)
Definition resume (t : Continuation) (s : State) : State :=
  match t with
  | AwaitUserByAddress payload originalHandler =>
      let s1 :=
        match getUserProfile (address payload) with
        | Some profile => merge_user (address payload) profile s
        | None => log ErrorFetchUserProfile s
        end in
      invoke originalHandler payload s1
  | ThenCompressed payload originalHandler =>
      match compressAndPadProof (proof payload) with
      | Some compressedProof =>
          invoke originalHandler (set_proof compressedProof payload) s
      | None => s
      end
  | AwaitCommandResponse command inner outer =>
      match promise_state <$> promises s !! inner with
      | Some (PromiseResolved response) =>
          match command, status (finalPayload response),
                verification_level (finalPayload response) with
          | Verify, success, Orb => park (AwaitCompressed response outer) s
          | _, _, _ => resolve outer response s
          end
      | Some PromiseRejected => reject outer s
      | _ => s
      end
  | AwaitCompressed response outer =>
      match compressAndPadProof (proof (finalPayload response)) with
      | Some compressedProof =>
          resolve outer
            {| commandPayload := commandPayload response;
               finalPayload := set_proof compressedProof (finalPayload response) |}
            s
      | None => reject outer s
      end
  end.

(** The environment lets the [i]-th parked continuation run. *)
Definition settle (i : nat) (s : State) : State :=
  match pending s !! i with
  | None => s
  | Some t =>
      if ready t s then resume t (set_pending (delete i (pending s)) s) else s
  end.

Definition promiseState (pid : nat) (s : State) : option PromiseState :=
  promise_state <$> promises s !! pid.

Definition resolveCalls (pid : nat) (s : State) : option nat :=
  resolve_calls <$> promises s !! pid.

(** Whether the wrapper of [event] holds back [payload] until one of its
    promises has settled, instead of passing it on inside [trigger]. *)
Definition deferred (event : ResponseEvent) (payload : EventPayload) : bool :=
  match event, status payload, verification_level payload with
  | MiniAppWalletAuth, success, _ => true
  | MiniAppVerifyAction, success, Orb => true
  | _, _, _ => false
  end.

(** An executor in the sense of [awaitCommand]'s callers: it may log and
    send, and leaves the bus, the promises and the parked continuations
    alone. *)
Definition executor_frame (executor : State -> Completion * State) : Prop :=
  forall s,
    listeners (snd (executor s)) = listeners s /\
    promises (snd (executor s)) = promises s /\
    pending (snd (executor s)) = pending s /\
    calls (snd (executor s)) = calls s /\
    user (snd (executor s)) = user s.

End MiniKit.

(** ** A concrete environment

    Used to run the model on explicit inputs. *)

Definition sampleCollaborators : Collaborators :=
  {| compressAndPadProof := fun p => Some ("c" +:+ p);
     getUserProfile := fun a =>
       if String.eqb a "0xbad" then None
       else Some {| profile_username := Some ("u" +:+ a);
                    profile_picture_url := None |};
     encodeAction := fun a => a;
     generateSignal := fun o => default "" o;
     validatePaymentPayload := fun _ => true;
     validateWalletAuthCommandInput := fun _ => true;
     validateSendTransactionPayload := fun j => j;
     generateSiweMessage := fun m => nonce m;
     toISOString_now := "2024-01-01T00:00:00.000Z";
     location_href := "https://app.example/";
     location_host := "app.example";
     url_protocol := fun _ => Some "https";
     transport_throws := fun _ => false |}.

(** The place of a command in the table [miniKitCommandVersion]. *)
Definition position (c : Command) : nat :=
  match c with
  | Verify => 0 | Pay => 1 | WalletAuth => 2 | SendTransaction => 3
  | SignMessage => 4 | SignTypedData => 5 | ShareContacts => 6
  | RequestPermission => 7 | GetPermissions => 8 | SendHapticFeedback => 9
  | ShareFiles => 10
  end%nat.

(** A host that advertises the commands [cs], each at version 1. *)
Definition hostAdvertising (cs : list Command) : WorldApp :=
  {| supported_commands :=
       map (fun c => {| name := commandName c; supported_versions := [1] |}) cs;
     is_optional_analytics := true; device_os := "ios";
     world_app_version := 25 |}.

(** A host that advertises every known command at version 1 except [x]. *)
Definition hostLacking (x : Command) : WorldApp :=
  hostAdvertising
    (filter (fun c => commandName c <> commandName x) allCommands).

Definition windowWith (app : option WorldApp) : option Window :=
  Some {| window_MiniKit := false; window_WorldApp := app |}.

(** The class as loaded in a browser tab outside the host. *)
Definition browserState : State := initialState (windowWith None).

(** The bridge after [install("app_1")] in a host lacking [x]. *)
Definition installedLacking (x : Command) : State :=
  snd (@install sampleCollaborators (Some "app_1")
         (initialState (windowWith (Some (hostLacking x))))).

(** The bridge after [install("app_1")] in a host with every command. *)
Definition installedState : State :=
  snd (@install sampleCollaborators (Some "app_1")
         (initialState (windowWith (Some (hostAdvertising allCommands))))).

(** A success event at level [Orb] with proof ["0x01"] and address ["0xA"]. *)
Definition orbSuccess : EventPayload :=
  {| status := success; verification_level := Orb; proof := "0x01";
     address := "0xA"; rest := "" |}.

Definition errorPayload : EventPayload :=
  {| status := error; verification_level := Device; proof := "";
     address := ""; rest := "user_rejected" |}.

Definition verifyInput : VerifyCommandInput :=
  {| vi_action := "vote"; vi_signal := None; vi_verification_level := None |}.

(** [awaitCommand] for [verify] on the installed bridge. *)
Definition awaitingVerify : nat * State :=
  awaitCommand MiniAppVerifyAction Verify
    (@commands sampleCollaborators (CallVerify verifyInput))
    installedState.

(** ** Reading the capability descriptor

    What the callback of [commandsValid] looks at, without its effects. *)

(** Whether [worldAppSupportedCommands.find(...)] finds an entry named [n]. *)
Definition hostLists (cs : list SupportedCommand) (n : string) : bool :=
  match find (fun command => String.eqb (name command) n) cs with
  | Some _ => true
  | None => false
  end.

(** Whether the first entry named like the row lists the row's version. *)
Definition hostSupports (cs : list SupportedCommand) (entry : string * Z) : bool :=
  match find (fun command => String.eqb (name command) (fst entry)) cs with
  | Some commandInput => includes (snd entry) (supported_versions commandInput)
  | None => false
  end.

(** The flags after the iteration over the rows [l]: the flag of [n] is set
    when the iteration reaches a row named [n] that the host lists. *)
Fixpoint marks (cs : list SupportedCommand) (l : list (string * Z)) (n : string)
    : bool :=
  match l with
  | [] => false
  | entry :: l' =>
      (String.eqb (fst entry) n && hostLists cs n)
      || (hostSupports cs entry && marks cs l' n)
  end.

(** ** [isInstalled]

    The two console lines of [isInstalled] are returned with the result;
    [None] is the [ReferenceError] of reading [window.MiniKit] where there is
    no [window]. *)
Inductive InstalledLog := LogAlive | ErrorNotInstalled.

Definition isInstalled (debug : bool) (s : State)
    : option (bool * list InstalledLog) :=
  match window s with
  | None => None
  | Some w =>
      Some (window_MiniKit w,
            (if debug then [LogAlive] else []) ++
            (if window_MiniKit w then [] else [ErrorNotInstalled]))
  end.

(** ** Runs of the bridge

    What calling code and the environment can do to the class: the public
    static methods, with handlers of the calling code, and the settling of a
    promise the bridge waits for. *)
Inductive Action :=
  | DoInstall (appId : option string)
  | DoSubscribe (event : ResponseEvent) (handler : nat)
  | DoUnsubscribe (event : ResponseEvent)
  | DoTrigger (event : ResponseEvent) (payload : EventPayload)
  | DoCommand (call : CommandCall)
  | DoCommandAsync (call : CommandCall)
  | DoSettle (i : nat).

Section Runs.
Context `{Collaborators}.

Definition step (a : Action) (s : State) : State :=
  match a with
  | DoInstall appId => snd (install appId s)
  | DoSubscribe event handler => subscribe event (CallerHandler handler) s
  | DoUnsubscribe event => unsubscribe event s
  | DoTrigger event payload => trigger event payload s
  | DoCommand call => snd (commands call s)
  | DoCommandAsync call => snd (commandsAsync call s)
  | DoSettle i => settle i s
  end.

Definition run (actions : list Action) (s : State) : State :=
  fold_left (fun st a => step a st) actions s.

End Runs.

(** The only topic a handler may unsubscribe is [event]. *)
Fixpoint unsubscribes_only (event : ResponseEvent) (h : Handler) : Prop :=
  match h with
  | HandleAndUnsubscribe event' _ => event' = event
  | WalletAuthWrapped originalHandler => unsubscribes_only event originalHandler
  | VerifyActionWrapped originalHandler => unsubscribes_only event originalHandler
  | _ => True
  end.

(** Every handler in the table sits in the slot of the topic it unsubscribes. *)
Definition bus_consistent (s : State) : Prop :=
  forall event h, listeners s !! event = Some h -> unsubscribes_only event h.

(** [window.MiniKit] is set. *)
Definition registered (s : State) : bool :=
  match window s with
  | Some w => window_MiniKit w
  | None => false
  end.

(** What only [install] writes: [window.MiniKit], the availability flags
    and [appId]. *)
Definition installation (s : State)
    : option Window * gmap string bool * option string :=
  (window s, isCommandAvailable s, appId s).

(** The second statement of [install]: warn, or record the identity. *)
Definition record_appId (appId : option string) (s : State) : State :=
  match appId with
  | None | Some "" => log WarnAppIdNotProvided s
  | Some a => set_appId (Some a) s
  end.

(** What negotiation leaves alone. *)
Definition beside_negotiation (s : State) :=
  (window s, listeners s, appId s, user s, promises s, pending s, sent s,
   calls s).

(** ** The wallet-auth wrapper of the preceding snapshot

    The snapshot of the class that precedes the one above (the one with eight
    commands) keeps the authenticated address in a static field of its own,
    starts the profile lookup without awaiting it, and has no transform on
    the verify-action topic.  Its event bus, for handlers of the calling
    code: *)
Module Earlier.

Inductive Handler :=
  | NoopHandler
  | CallerHandler (id : nat)
  | WalletAuthWrapped (originalHandler : Handler).

(** [MiniKit.user], when not [null]. *)
Record UserInfo := {
  user_username : option string;
  user_profilePictureUrl : option string;
  user_walletAddress : string
}.

Record State := {
  walletAddress : option string;        (* [MiniKit.walletAddress] *)
  user : option UserInfo;               (* [MiniKit.user] *)
  listeners : gmap ResponseEvent Handler;
  lookups : list EventPayload;
      (* [getUserProfile(payload.address).then(...)] not yet settled *)
  console : list ResponseEvent;         (* [No handler for event ...] *)
  calls : list (nat * EventPayload)
}.

Definition subscribe (event : ResponseEvent) (handler : Handler) (s : State)
    : State :=
  let registered :=
    match event with
    | MiniAppWalletAuth => WalletAuthWrapped handler
    | _ => handler
    end in
  {| walletAddress := walletAddress s; user := user s;
     listeners := <[event := registered]> (listeners s);
     lookups := lookups s; console := console s; calls := calls s |}.

Definition unsubscribe (event : ResponseEvent) (s : State) : State :=
  {| walletAddress := walletAddress s; user := user s;
     listeners := delete event (listeners s);
     lookups := lookups s; console := console s; calls := calls s |}.

Fixpoint invoke (h : Handler) (payload : EventPayload) (s : State) : State :=
  match h with
  | NoopHandler => s
  | CallerHandler id =>
      {| walletAddress := walletAddress s; user := user s;
         listeners := listeners s; lookups := lookups s;
         console := console s; calls := calls s ++ [(id, payload)] |}
  | WalletAuthWrapped originalHandler =>
      invoke originalHandler payload
        match status payload with
        | success =>
            {| walletAddress := Some (address payload); user := user s;
               listeners := listeners s;
               lookups := lookups s ++ [payload];
               console := console s; calls := calls s |}
        | error => s
        end
  end.

Definition trigger (event : ResponseEvent) (payload : EventPayload) (s : State)
    : State :=
  match listeners s !! event with
  | None =>
      {| walletAddress := walletAddress s; user := user s;
         listeners := listeners s; lookups := lookups s;
         console := console s ++ [event]; calls := calls s |}
  | Some h => invoke h payload s
  end.

(** The [i]-th lookup settles: the [then] callback replaces [MiniKit.user];
    a rejection has no handler and leaves the class as it is. *)
Definition settle `{Collaborators} (i : nat) (s : State) : State :=
  match lookups s !! i with
  | None => s
  | Some payload =>
      {| walletAddress := walletAddress s;
         user :=
           match getUserProfile (address payload) with
           | Some queryResponse =>
               Some {| user_username := profile_username queryResponse;
                       user_profilePictureUrl :=
                         profile_picture_url queryResponse;
                       user_walletAddress := address payload |}
           | None => user s
           end;
         listeners := listeners s;
         lookups := delete i (lookups s);
         console := console s; calls := calls s |}
  end.

End Earlier.

(** A transport that takes the [init] message and throws on every command. *)
Definition throwingTransport : Collaborators :=
  {| compressAndPadProof := fun p => Some ("c" +:+ p);
     getUserProfile := fun a =>
       if String.eqb a "0xbad" then None
       else Some {| profile_username := Some ("u" +:+ a);
                    profile_picture_url := None |};
     encodeAction := fun a => a;
     generateSignal := fun o => default "" o;
     validatePaymentPayload := fun _ => true;
     validateWalletAuthCommandInput := fun _ => true;
     validateSendTransactionPayload := fun j => j;
     generateSiweMessage := fun m => nonce m;
     toISOString_now := "2024-01-01T00:00:00.000Z";
     location_href := "https://app.example/";
     location_host := "app.example";
     url_protocol := fun _ => Some "https";
     transport_throws := fun e =>
       match e with
       | InitMessage _ => false
       | CommandMessage _ _ _ => true
       end |}.

(** A host that lists [verify] at version 2 only, and the other commands at
    version 1. *)
Definition hostWithVerifyAtVersion2 : WorldApp :=
  {| supported_commands :=
       {| name := "verify"; supported_versions := [2] |}
       :: supported_commands (hostLacking Verify);
     is_optional_analytics := true; device_os := "ios";
     world_app_version := 25 |}.

(** A wallet-auth success for address ["0xB"]. *)
Definition authSuccessB : EventPayload :=
  {| status := success; verification_level := Device; proof := "";
     address := "0xB"; rest := "" |}.

(** A re-encoding that succeeds on the proof ["0x01"] only. *)
Definition rejectingCompression : Collaborators :=
  {| compressAndPadProof := fun p =>
       if String.eqb p "0x01" then Some "c0x01" else None;
     getUserProfile := fun _ => None;
     encodeAction := fun a => a;
     generateSignal := fun o => default "" o;
     validatePaymentPayload := fun _ => true;
     validateWalletAuthCommandInput := fun _ => true;
     validateSendTransactionPayload := fun j => j;
     generateSiweMessage := fun m => nonce m;
     toISOString_now := "2024-01-01T00:00:00.000Z";
     location_href := "https://app.example/";
     location_host := "app.example";
     url_protocol := fun _ => Some "https";
     transport_throws := fun _ => false |}.

(** The preceding snapshot's class as loaded. *)
Definition earlierInitial : Earlier.State :=
  {| Earlier.walletAddress := None; Earlier.user := None;
     Earlier.listeners :=
       list_to_map
         (map (fun e => (e, Earlier.NoopHandler))
            [MiniAppVerifyAction; MiniAppPayment; MiniAppWalletAuth;
             MiniAppSendTransaction; MiniAppSignMessage; MiniAppSignTypedData;
             MiniAppShareContacts; MiniAppSendHapticFeedback]);
     Earlier.lookups := []; Earlier.console := []; Earlier.calls := [] |}.

(** The bridge installed over the transport that throws on commands. *)
Definition throwingInstalled : State :=
  snd (@install throwingTransport (Some "app_1")
         (initialState (windowWith (Some (hostAdvertising allCommands))))).

(** An [Orb] success with proof ["0x02"]. *)
Definition orbSuccess2 : EventPayload :=
  {| status := success; verification_level := Orb; proof := "0x02";
     address := "0xA"; rest := "" |}.

(** * Properties *)

Section Properties.
Context `{Collaborators}.

(** ** Installation *)

(** C10: where there is no [window] object at all, [install] fails with
    [AlreadyInstalled] (not with [OutsideOfWorldApp]) and changes nothing. *)
Theorem install_without_window (a : option string) (s : State) :
  window s = None ->
  install a s = (InstallFailure AlreadyInstalled, s).
Proof. intros Hw. unfold install. rewrite Hw. reflexivity. Qed.

(** C9: [install a] with a non-empty [a], in a window where the bridge is not
    yet registered and no [WorldApp] object is present, fails with
    [OutsideOfWorldApp], and the process-wide [appId] is [a] afterwards: the
    identity is recorded before the host-presence check. *)
Theorem install_outside_world_app_records_appId
    (a : string) (s : State) (w : Window) :
  a <> "" ->
  window s = Some w ->
  window_MiniKit w = false ->
  window_WorldApp w = None ->
  install (Some a) s = (InstallFailure OutsideOfWorldApp, set_appId (Some a) s) /\
  appId (snd (install (Some a) s)) = Some a.
Proof.
  intros Ha Hw Hk Happ. unfold install. rewrite Hw, Hk, Happ.
  destruct a as [|ch a']; [congruence|]. split; reflexivity.
Qed.

(** ** Event bus *)

Lemma lookup_subscribe (event : ResponseEvent) (h : Handler) (s : State) :
  listeners (subscribe event h s) !! event = Some (wrappedHandler event h).
Proof. unfold subscribe. simpl. apply lookup_insert_eq. Qed.

Lemma lookup_unsubscribe (event : ResponseEvent) (s : State) :
  listeners (unsubscribe event s) !! event = None.
Proof. unfold unsubscribe. simpl. apply lookup_delete_eq. Qed.

Lemma trigger_subscribed (event : ResponseEvent) (h : Handler)
    (p : EventPayload) (s : State) :
  listeners s !! event = Some h -> trigger event p s = invoke h p s.
Proof. intros Hl. unfold trigger. rewrite Hl. reflexivity. Qed.

Lemma trigger_unsubscribed (event : ResponseEvent) (p : EventPayload) (s : State) :
  listeners s !! event = None ->
  trigger event p s = log (ErrorNoHandler event p) s.
Proof. intros Hl. unfold trigger. rewrite Hl. reflexivity. Qed.

(** What [trigger] does with a caller's handler under the wrapper of its
    topic: a deferred payload is parked, any other is handed over at once. *)
Lemma invoke_wrapped_caller (event : ResponseEvent) (id : nat)
    (p : EventPayload) (s : State) :
  calls (invoke (wrappedHandler event (CallerHandler id)) p s) =
  if deferred event p then calls s else calls s ++ [(id, p)].
Proof.
  unfold deferred.
  destruct event; simpl; try reflexivity;
    destruct (status p); try reflexivity;
    destruct (verification_level p); reflexivity.
Qed.

(** A delivery to a caller's handler under the wrapper of its topic, from
    [trigger] to the moment the wrapper's promise has settled.  A payload
    the wrapper does not hold back reaches the handler inside [trigger] and
    leaves nothing parked.  An [Orb] success on the verify-action topic is
    parked; when the re-encoding has settled the handler gets the payload
    with [proof] replaced, or nothing at all if the re-encoding was rejected.
    A wallet-auth success is parked until the lookup has settled, whatever
    its outcome, and the handler then gets the payload as delivered. *)
Lemma delivery_to_caller (T : ResponseEvent) (id : nat) (p : EventPayload)
    (s : State) :
  let s3 := trigger T p (subscribe T (CallerHandler id) s) in
  let s4 := settle (length (pending s)) s3 in
  (deferred T p = false ->
     calls s3 = calls s ++ [(id, p)] /\ pending s3 = pending s /\ s4 = s3) /\
  (T = MiniAppVerifyAction -> status p = success -> verification_level p = Orb ->
     calls s3 = calls s /\
     pending s3 = pending s ++ [ThenCompressed p (CallerHandler id)] /\
     pending s4 = pending s /\
     calls s4 =
       match compressAndPadProof (proof p) with
       | Some compressedProof =>
           calls s ++
           [(id, {| status := status p;
                    verification_level := verification_level p;
                    proof := compressedProof;
                    address := address p; rest := rest p |})]
       | None => calls s
       end) /\
  (T = MiniAppWalletAuth -> status p = success ->
     calls s3 = calls s /\
     pending s3 = pending s ++ [AwaitUserByAddress p (CallerHandler id)] /\
     pending s4 = pending s /\
     calls s4 = calls s ++ [(id, p)]).
Proof.
  intros s3 s4.
  assert (Hl : listeners (subscribe T (CallerHandler id) s) !! T
               = Some (wrappedHandler T (CallerHandler id)))
    by apply lookup_subscribe.
  assert (Hnone : pending s !! length (pending s) = None)
    by (apply lookup_ge_None_2; reflexivity).
  unfold s4, s3. rewrite (trigger_subscribed _ _ _ _ Hl).
  split; [|split].
  - intros Hd. unfold deferred in Hd.
    assert (Hsync : invoke (wrappedHandler T (CallerHandler id)) p
                      (subscribe T (CallerHandler id) s)
                    = record_call id p (subscribe T (CallerHandler id) s)).
    { destruct T; simpl in Hd |- *; try reflexivity;
        destruct (status p); try discriminate Hd; try reflexivity;
        destruct (verification_level p); try discriminate Hd; reflexivity. }
    rewrite Hsync. do 2 (split; [reflexivity|]).
    unfold settle. simpl. rewrite Hnone. reflexivity.
  - intros -> Hs Hv. simpl. rewrite Hs, Hv.
    do 2 (split; [reflexivity|]).
    unfold settle, park. simpl.
    rewrite (list_lookup_middle _ [] _ _ eq_refl). simpl.
    rewrite (delete_middle (pending s) []), app_nil_r.
    destruct (compressAndPadProof (proof p)); split; try reflexivity.
    simpl. unfold set_proof. rewrite Hs, Hv. reflexivity.
  - intros -> Hs. simpl. rewrite Hs.
    do 2 (split; [reflexivity|]).
    unfold settle, park. simpl.
    rewrite (list_lookup_middle _ [] _ _ eq_refl). simpl.
    rewrite (delete_middle (pending s) []), app_nil_r.
    destruct (getUserProfile (address p)); split; reflexivity.
Qed.

(** The payloads a wrapper holds back are exactly the two shapes with a
    transform. *)
Lemma deferred_shapes (T : ResponseEvent) (p : EventPayload) :
  deferred T p = true <->
  (T = MiniAppVerifyAction /\ status p = success /\ verification_level p = Orb) \/
  (T = MiniAppWalletAuth /\ status p = success).
Proof.
  unfold deferred. split.
  - destruct T; try discriminate;
      destruct (status p); try discriminate;
      [destruct (verification_level p); try discriminate; left | right];
      repeat split.
  - intros [(-> & -> & ->) | (-> & ->)]; reflexivity.
Qed.

(** C6: after [subscribe T h1] and then [subscribe T h2] the bridge is in the
    very state it would be in had [h1] never been subscribed; [trigger T p]
    runs the wrapper of [h2] and nothing else.  For handlers of the calling
    code, followed up to the moment the wrapper's promise has settled:
    - a payload the wrapper of [T] does not hold back (every payload on a
      topic without a transform, a verify-action event that is not an [Orb]
      success, a wallet-auth error) reaches [h2] inside [trigger], as it
      came, and nothing is left parked;
    - an [Orb] success on the verify-action topic reaches [h2] when the
      re-encoding has settled, with [proof] replaced by the re-encoded value
      and the other fields as they came (and does not reach it if the
      re-encoding is rejected);
    - a wallet-auth success reaches [h2] when the profile lookup has
      settled, as it came;
    and in none of these cases a call of [h1] is recorded. *)
Theorem subscribe_replaces (T : ResponseEvent) (h1 h2 : Handler)
    (p : EventPayload) (s : State) :
  let s2 := subscribe T h2 (subscribe T h1 s) in
  s2 = subscribe T h2 s /\
  listeners s2 !! T = Some (wrappedHandler T h2) /\
  trigger T p s2 = invoke (wrappedHandler T h2) p s2 /\
  (forall id2, h2 = CallerHandler id2 ->
     calls (trigger T p s2) =
     if deferred T p then calls s else calls s ++ [(id2, p)]) /\
  (deferred T p = true <->
   (T = MiniAppVerifyAction /\ status p = success /\ verification_level p = Orb) \/
   (T = MiniAppWalletAuth /\ status p = success)) /\
  forall id2, h2 = CallerHandler id2 ->
    let s3 := trigger T p s2 in
    let s4 := settle (length (pending s)) s3 in
    (deferred T p = false ->
       calls s3 = calls s ++ [(id2, p)] /\ pending s3 = pending s /\ s4 = s3) /\
    (T = MiniAppVerifyAction -> status p = success -> verification_level p = Orb ->
       calls s3 = calls s /\
       pending s3 = pending s ++ [ThenCompressed p h2] /\
       pending s4 = pending s /\
       calls s4 =
         match compressAndPadProof (proof p) with
         | Some compressedProof =>
             calls s ++
             [(id2, {| status := status p;
                       verification_level := verification_level p;
                       proof := compressedProof;
                       address := address p; rest := rest p |})]
         | None => calls s
         end) /\
    (T = MiniAppWalletAuth -> status p = success ->
       calls s3 = calls s /\
       pending s3 = pending s ++ [AwaitUserByAddress p h2] /\
       pending s4 = pending s /\
       calls s4 = calls s ++ [(id2, p)]) /\
    (forall id1 q, h1 = CallerHandler id1 -> id1 <> id2 ->
       ((id1, q) ∈ calls s3 -> (id1, q) ∈ calls s) /\
       ((id1, q) ∈ calls s4 -> (id1, q) ∈ calls s)).
Proof.
  intros s2.
  assert (Heq : s2 = subscribe T h2 s).
  { unfold s2, subscribe, set_listeners. simpl. f_equal. apply insert_insert_eq. }
  assert (Hl : listeners s2 !! T = Some (wrappedHandler T h2)).
  { unfold s2. apply lookup_subscribe. }
  do 3 (split; [first [exact Heq | exact Hl | apply trigger_subscribed, Hl]|]).
  split.
  { intros id2 ->. rewrite (trigger_subscribed _ _ _ _ Hl).
    rewrite invoke_wrapped_caller. reflexivity. }
  split; [apply deferred_shapes|].
  intros id2 -> s3 s4. unfold s4, s3. rewrite Heq.
  destruct (delivery_to_caller T id2 p s) as (Hsync & Hverify & Hauth).
  do 3 (split; [assumption|]).
  intros id1 q _ Hne.
  assert (Hother : forall r, (id1, q) ∈ calls s ++ [(id2, r)] -> (id1, q) ∈ calls s).
  { intros r Hin. apply elem_of_app in Hin as [Hin | Hin]; [exact Hin|].
    apply list_elem_of_singleton in Hin. congruence. }
  destruct (deferred T p) eqn:Hd.
  - apply deferred_shapes in Hd as [(HT & Hs & Hv) | (HT & Hs)].
    + destruct (Hverify HT Hs Hv) as (H3 & _ & _ & H4). rewrite H3, H4.
      split; [trivial|].
      destruct (compressAndPadProof (proof p)); [apply Hother | trivial].
    + destruct (Hauth HT Hs) as (H3 & _ & _ & H4). rewrite H3, H4.
      split; [trivial | apply Hother].
  - destruct (Hsync eq_refl) as (H3 & _ & H4). rewrite H4, H3.
    split; apply Hother.
Qed.

(** C8, as the code has it: after [unsubscribe T], [trigger T p] logs one
    error and does nothing else (no handler runs, nothing is thrown).  While
    no handler has ever been subscribed, the table still holds the initial
    no-op handler of [T], on the class as loaded and for as long as the slot
    of [T] is left alone: [trigger T p] runs it, so that nothing is logged
    and nothing else happens. *)
Theorem trigger_without_subscriber (T : ResponseEvent) (p : EventPayload)
    (s : State) (w : option Window) :
  trigger T p (unsubscribe T s) = log (ErrorNoHandler T p) (unsubscribe T s) /\
  calls (trigger T p (unsubscribe T s)) = calls s /\
  console (trigger T p (unsubscribe T s)) = console s ++ [ErrorNoHandler T p] /\
  listeners (initialState w) !! T = Some NoopHandler /\
  trigger T p (initialState w) = initialState w /\
  (forall s0, listeners s0 !! T = Some NoopHandler -> trigger T p s0 = s0).
Proof.
  assert (Hu := trigger_unsubscribed T p _ (lookup_unsubscribe T s)).
  assert (Hi : listeners (initialState w) !! T = Some NoopHandler).
  { destruct T; vm_compute; reflexivity. }
  split; [exact Hu|]. split; [rewrite Hu; reflexivity|].
  split; [rewrite Hu; reflexivity|]. split; [exact Hi|].
  split.
  - rewrite (trigger_subscribed _ _ _ _ Hi). reflexivity.
  - intros s0 H0. rewrite (trigger_subscribed _ _ _ _ H0). reflexivity.
Qed.

(** ** Response transforms *)

Lemma settle_ready (i : nat) (t : Continuation) (s : State) :
  pending s !! i = Some t -> ready t s = true ->
  settle i s = resume t (set_pending (delete i (pending s)) s).
Proof. intros Hp Hr. unfold settle. rewrite Hp, Hr. reflexivity. Qed.

(** C2: with a handler [h] subscribed to the verify-action topic, a success
    event at level [Orb] is not handed to [h] inside [trigger]: its
    continuation is parked, and when it runs, [h] is called with the payload
    whose [proof] is the re-encoded one (and is not called at all if the
    re-encoding promise rejects).  For a handler of the calling code this is
    what the record of its calls shows: no call when [trigger] returns, and
    when the re-encoding has settled exactly one call, whose payload has the
    re-encoded value in [proof] and the other fields as they came; the same
    holds in whatever state the parked continuation comes to run.  An event
    of any other shape (a lower level, or an error) is handed to [h] inside
    [trigger], unmodified, and nothing is parked. *)
Theorem verify_action_transform (h : Handler) (p : EventPayload) (s : State) :
  let s1 := subscribe MiniAppVerifyAction h s in
  (status p = success -> verification_level p = Orb ->
     trigger MiniAppVerifyAction p s1 = park (ThenCompressed p h) s1 /\
     calls (trigger MiniAppVerifyAction p s1) = calls s /\
     (forall (s2 : State) (i : nat),
        pending s2 !! i = Some (ThenCompressed p h) ->
        settle i s2 =
        match compressAndPadProof (proof p) with
        | Some compressedProof =>
            invoke h (set_proof compressedProof p)
              (set_pending (delete i (pending s2)) s2)
        | None => set_pending (delete i (pending s2)) s2
        end) /\
     pending (trigger MiniAppVerifyAction p s1)
       = pending s ++ [ThenCompressed p h] /\
     forall id, h = CallerHandler id ->
       let s3 := settle (length (pending s)) (trigger MiniAppVerifyAction p s1) in
       pending s3 = pending s /\
       calls s3 =
         match compressAndPadProof (proof p) with
         | Some compressedProof =>
             calls s ++
             [(id, {| status := status p;
                      verification_level := verification_level p;
                      proof := compressedProof;
                      address := address p; rest := rest p |})]
         | None => calls s
         end /\
       forall (s2 : State) (i : nat),
         pending s2 !! i = Some (ThenCompressed p h) ->
         pending (settle i s2) = delete i (pending s2) /\
         calls (settle i s2) =
           match compressAndPadProof (proof p) with
           | Some compressedProof =>
               calls s2 ++
               [(id, {| status := status p;
                        verification_level := verification_level p;
                        proof := compressedProof;
                        address := address p; rest := rest p |})]
           | None => calls s2
           end) /\
  (~ (status p = success /\ verification_level p = Orb) ->
     trigger MiniAppVerifyAction p s1 = invoke h p s1) /\
  (forall id, h = CallerHandler id ->
     ~ (status p = success /\ verification_level p = Orb) ->
     calls (trigger MiniAppVerifyAction p s1) = calls s ++ [(id, p)] /\
     pending (trigger MiniAppVerifyAction p s1) = pending s).
Proof.
  intros s1.
  assert (Hl : listeners s1 !! MiniAppVerifyAction = Some (VerifyActionWrapped h))
    by apply lookup_subscribe.
  split; [|split].
  - intros Hs Hv.
    assert (Hrun : forall (s2 : State) (i : nat),
              pending s2 !! i = Some (ThenCompressed p h) ->
              settle i s2 =
              match compressAndPadProof (proof p) with
              | Some compressedProof =>
                  invoke h (set_proof compressedProof p)
                    (set_pending (delete i (pending s2)) s2)
              | None => set_pending (delete i (pending s2)) s2
              end).
    { intros s2 i Hp. rewrite (settle_ready _ _ _ Hp eq_refl). simpl.
      destruct (compressAndPadProof (proof p)); reflexivity. }
    assert (Htrigger : trigger MiniAppVerifyAction p s1
                       = park (ThenCompressed p h) s1).
    { rewrite (trigger_subscribed _ _ _ _ Hl). simpl. rewrite Hs, Hv.
      reflexivity. }
    rewrite Htrigger.
    do 2 (split; [reflexivity|]). split; [exact Hrun|].
    split; [reflexivity|].
    intros id Hh s3.
    assert (Hparked : pending (park (ThenCompressed p h) s1) !! length (pending s)
                      = Some (ThenCompressed p h)).
    { apply list_lookup_middle. reflexivity. }
    unfold s3. rewrite (Hrun _ _ Hparked). subst h.
    split; [|split].
    + destruct (compressAndPadProof (proof p)); simpl;
        rewrite (delete_middle (pending s) []); apply app_nil_r.
    + destruct (compressAndPadProof (proof p)); reflexivity.
    + intros s2 i Hp. rewrite (Hrun _ _ Hp).
      destruct (compressAndPadProof (proof p)); split; reflexivity.
  - intros Hn. rewrite (trigger_subscribed _ _ _ _ Hl). simpl.
    destruct (status p) eqn:Hs; [|reflexivity].
    destruct (verification_level p) eqn:Hv; [|reflexivity].
    exfalso. apply Hn. split; reflexivity.
  - intros id -> Hn. rewrite (trigger_subscribed _ _ _ _ Hl). simpl.
    destruct (status p) eqn:Hs; [|split; reflexivity].
    destruct (verification_level p) eqn:Hv; [|split; reflexivity].
    exfalso. apply Hn. split; reflexivity.
Qed.

(** C5, as the code has it: with a handler [h] subscribed to the wallet-auth
    topic, a success event with address [A] sets [walletAddress] to [A] at
    once and parks the rest of the wrapper at [await getUserByAddress(A)];
    [h] is not called inside [trigger].  When the lookup has settled the
    wrapper goes on: after a successful lookup the session context holds the
    profile of [A]; after a failed one the failure is logged and nothing is
    thrown; in both cases [h] is then called, once, with the payload as
    delivered. *)
Theorem wallet_auth_handler_waits_for_lookup
    (h : Handler) (p : EventPayload) (s : State) :
  status p = success ->
  let s1 := subscribe MiniAppWalletAuth h s in
  trigger MiniAppWalletAuth p s1 =
    park (AwaitUserByAddress p h) (set_walletAddress (address p) s1) /\
  walletAddress (user (trigger MiniAppWalletAuth p s1)) = Some (address p) /\
  calls (trigger MiniAppWalletAuth p s1) = calls s /\
  forall (s2 : State) (i : nat),
    pending s2 !! i = Some (AwaitUserByAddress p h) ->
    let s3 := set_pending (delete i (pending s2)) s2 in
    match getUserProfile (address p) with
    | Some profile =>
        settle i s2 = invoke h p (merge_user (address p) profile s3) /\
        walletAddress (user (merge_user (address p) profile s3))
          = Some (address p) /\
        username (user (merge_user (address p) profile s3))
          = profile_username profile /\
        profilePictureUrl (user (merge_user (address p) profile s3))
          = profile_picture_url profile /\
        console (merge_user (address p) profile s3) = console s2
    | None =>
        settle i s2 = invoke h p (log ErrorFetchUserProfile s3) /\
        user (log ErrorFetchUserProfile s3) = user s2 /\
        console (log ErrorFetchUserProfile s3)
          = console s2 ++ [ErrorFetchUserProfile]
    end.
Proof.
  intros Hs s1.
  assert (Hl : listeners s1 !! MiniAppWalletAuth = Some (WalletAuthWrapped h))
    by apply lookup_subscribe.
  rewrite (trigger_subscribed _ _ _ _ Hl). simpl. rewrite Hs.
  do 3 (split; [reflexivity|]).
  intros s2 i Hp. rewrite (settle_ready _ _ _ Hp eq_refl). simpl.
  destruct (getUserProfile (address p)); repeat split.
Qed.

(** ** Correlation *)

Lemma lookup_last {A : Type} (l : list A) (x : A) :
  (l ++ [x]) !! length l = Some x.
Proof. apply list_lookup_middle. reflexivity. Qed.

Lemma insert_last {A : Type} (l : list A) (x y : A) :
  <[length l := y]> (l ++ [x]) = l ++ [y].
Proof. induction l as [|a l IH]; simpl; [reflexivity|]. f_equal. exact IH. Qed.

Lemma lookup_last2 {A : Type} (l : list A) (x y : A) :
  ((l ++ [x]) ++ [y]) !! S (length l) = Some y.
Proof. induction l as [|a l IH]; simpl; [reflexivity|exact IH]. Qed.

Lemma delete_last2 {A : Type} (l : list A) (x y : A) :
  delete (S (length l)) ((l ++ [x]) ++ [y]) = l ++ [x].
Proof. induction l as [|a l IH]; simpl; [reflexivity|]. f_equal. exact IH. Qed.

Lemma lookup_last_but_one {A : Type} (l : list A) (x y : A) :
  ((l ++ [x]) ++ [y]) !! length l = Some x.
Proof. apply lookup_app_l_Some, lookup_last. Qed.

Lemma insert_last_but_one {A : Type} (l : list A) (x y z : A) :
  <[length l := z]> ((l ++ [x]) ++ [y]) = (l ++ [z]) ++ [y].
Proof. induction l as [|a l IH]; simpl; [reflexivity|]. f_equal. exact IH. Qed.

Lemma delete_last {A : Type} (l : list A) (x : A) :
  delete (length l) (l ++ [x]) = l.
Proof. rewrite delete_middle. apply app_nil_r. Qed.

Lemma invoke_wrapped_sync (event : ResponseEvent) (h : Handler)
    (p : EventPayload) (s : State) :
  deferred event p = false ->
  invoke (wrappedHandler event h) p s = invoke h p s.
Proof.
  unfold deferred.
  destruct event; simpl; try reflexivity;
    destruct (status p); try reflexivity; try discriminate;
    destruct (verification_level p); try reflexivity; discriminate.
Qed.

Lemma invoke_handleAndUnsubscribe (event : ResponseEvent) (p : EventPayload)
    (s : State) (l : list PromiseCell) (cell : PromiseCell) :
  promises s = l ++ [cell] ->
  invoke (HandleAndUnsubscribe event (length l)) p s =
  set_promises
    (l ++ [resolved_cell cell
             {| commandPayload := command_payload_slot cell; finalPayload := p |}])
    (unsubscribe event s).
Proof.
  intros Hp. simpl. unfold resolve, read_commandPayload. simpl.
  rewrite Hp, lookup_last. simpl. rewrite insert_last. reflexivity.
Qed.

Lemma awaitCommand_returned (event : ResponseEvent) (command : Command)
    (executor : State -> Completion * State)
    (result : option CommandReturnPayload) (s s' : State) :
  executor_frame executor ->
  executor (subscribe event (HandleAndUnsubscribe event (length (promises s)))
              (snd (new_promise s))) = (Returned result, s') ->
  awaitCommand event command executor s =
    (length (promises s),
     set_promises
       (promises s ++ [{| promise_state := PromisePending; resolve_calls := 0;
                          command_payload_slot := result |}]) s') /\
  listeners s' =
    <[event := wrappedHandler event
                 (HandleAndUnsubscribe event (length (promises s)))]>
      (listeners s) /\
  pending s' = pending s /\ calls s' = calls s /\ user s' = user s.
Proof.
  intros Hframe Hexec.
  destruct (Hframe (subscribe event
                      (HandleAndUnsubscribe event (length (promises s)))
                      (snd (new_promise s)))) as (Hl & Hp & Hq & Hc & Hu).
  rewrite Hexec in Hl, Hp, Hq, Hc, Hu. simpl in Hl, Hp, Hq, Hc, Hu.
  repeat split; try assumption.
  unfold awaitCommand. simpl. simpl in Hexec. rewrite Hexec.
  unfold assign_commandPayload. rewrite Hp, lookup_last. simpl.
  rewrite insert_last. reflexivity.
Qed.

(** C3, as the code has it.  Let [awaitCommand T command executor] be called
    with an executor that returns [result] (a payload or [null]).  The promise
    is pending, with the handler subscribed, when the call returns.
    - If the first event on [T] is one that the wrapper of [T] passes on
      inside [trigger] (any event on a topic without a transform, a
      verify-action event that is not an [Orb] success, a wallet-auth error),
      the promise is resolved inside that [trigger], by the one call of its
      [resolve], with [commandPayload = result] and [finalPayload] the event's
      payload; the handler has unsubscribed itself, and any further event on
      [T] is answered by an error in the log and nothing else.
    - If the first event is one the wrapper holds back (an [Orb] verify
      success, a wallet-auth success), the promise is still pending and the
      handler still subscribed when [trigger] returns; once the wrapper's
      continuation has run (no other event having arrived) the promise is
      resolved, by one call of [resolve], with [commandPayload = result] and
      [finalPayload] the payload as the wrapper passes it on: with the
      re-encoded proof on the verify-action topic (and never, if re-encoding
      fails), unchanged on the wallet-auth topic. *)
Theorem awaitCommand_resolution (T : ResponseEvent) (command : Command)
    (executor : State -> Completion * State)
    (result : option CommandReturnPayload) (s s' : State) (p : EventPayload) :
  executor_frame executor ->
  let pid := length (promises s) in
  executor (subscribe T (HandleAndUnsubscribe T pid) (snd (new_promise s)))
    = (Returned result, s') ->
  let s1 := snd (awaitCommand T command executor s) in
  let resolved_with (payload : EventPayload) (st : State) :=
    promiseState pid st =
      Some (PromiseResolved {| commandPayload := result;
                               finalPayload := payload |}) /\
    resolveCalls pid st = Some 1%nat /\
    listeners st !! T = None in
  let still_pending (st : State) :=
    promiseState pid st = Some PromisePending /\
    resolveCalls pid st = Some 0%nat in
  fst (awaitCommand T command executor s) = pid /\
  still_pending s1 /\
  listeners s1 !! T = Some (wrappedHandler T (HandleAndUnsubscribe T pid)) /\
  (deferred T p = false ->
     resolved_with p (trigger T p s1) /\
     forall p', trigger T p' (trigger T p s1)
                = log (ErrorNoHandler T p') (trigger T p s1)) /\
  (deferred T p = true ->
     still_pending (trigger T p s1) /\
     listeners (trigger T p s1) !! T
       = Some (wrappedHandler T (HandleAndUnsubscribe T pid)) /\
     let s3 := settle (length (pending s)) (trigger T p s1) in
     match T with
     | MiniAppVerifyAction =>
         match compressAndPadProof (proof p) with
         | Some compressedProof => resolved_with (set_proof compressedProof p) s3
         | None => still_pending s3
         end
     | _ => resolved_with p s3
     end).
Proof.
  intros Hframe pid Hexec s1 resolved_with still_pending.
  destruct (awaitCommand_returned T command executor result s s' Hframe Hexec)
    as (Heq & Hl & Hq & _ & _).
  unfold s1, resolved_with, still_pending, promiseState, resolveCalls.
  rewrite Heq. simpl. clear s1 resolved_with still_pending.
  set (cell := {| promise_state := PromisePending; resolve_calls := 0;
                  command_payload_slot := result |}).
  set (s1 := set_promises (promises s ++ [cell]) s').
  assert (Hl1 : listeners s1 !! T
                = Some (wrappedHandler T (HandleAndUnsubscribe T pid))).
  { unfold s1. simpl. rewrite Hl. apply lookup_insert_eq. }
  assert (Hp1 : promises s1 = promises s ++ [cell]) by reflexivity.
  split; [reflexivity|]. split.
  { fold pid. unfold pid. rewrite lookup_last. split; reflexivity. }
  split; [exact Hl1|]. split.
  - (* passed on inside trigger *)
    intros Hd. rewrite (trigger_subscribed _ _ _ _ Hl1).
    rewrite (invoke_wrapped_sync _ _ _ _ Hd).
    unfold pid. rewrite (invoke_handleAndUnsubscribe T p s1 _ cell Hp1).
    simpl. rewrite lookup_last. simpl.
    assert (Hnone : delete T (listeners s') !! T = None) by apply lookup_delete_eq.
    repeat split; try assumption.
    intros p'. apply trigger_unsubscribed. simpl. exact Hnone.
  - (* held back by the wrapper *)
    intros Hd. rewrite (trigger_subscribed _ _ _ _ Hl1).
    unfold deferred in Hd.
    destruct T; try discriminate Hd; simpl in Hd |- *.
    + (* verify-action *)
      destruct (status p) eqn:Hs; try discriminate Hd.
      destruct (verification_level p) eqn:Hv; try discriminate Hd.
      unfold park, s1, pid. simpl. rewrite lookup_last. simpl.
      split; [split; reflexivity|].
      split; [rewrite Hl; apply lookup_insert_eq|].
      unfold settle. simpl. rewrite Hq, lookup_last. simpl.
      rewrite delete_last.
      destruct (compressAndPadProof (proof p)) as [c|]; simpl.
      * unfold resolve, read_commandPayload. simpl. rewrite lookup_last. simpl.
        rewrite insert_last, lookup_last. simpl.
        repeat split. apply lookup_delete_eq.
      * rewrite lookup_last. split; reflexivity.
    + (* wallet-auth *)
      destruct (status p) eqn:Hs; try discriminate Hd.
      unfold park, s1, pid. simpl. rewrite lookup_last. simpl.
      split; [split; reflexivity|].
      split; [rewrite Hl; apply lookup_insert_eq|].
      unfold settle. simpl. rewrite Hq, lookup_last. simpl.
      rewrite delete_last.
      destruct (getUserProfile (address p)) as [profile|]; simpl;
        unfold resolve, read_commandPayload; simpl; rewrite lookup_last; simpl;
        rewrite insert_last, lookup_last; simpl;
        repeat split; apply lookup_delete_eq.
Qed.

(** ** Command entry points *)

Lemma send_and_return_frame (c : Command) (payload result : CommandReturnPayload)
    (s : State) :
  let s' := snd (send_and_return c payload result s) in
  listeners s' = listeners s /\ promises s' = promises s /\
  pending s' = pending s /\ calls s' = calls s /\ user s' = user s.
Proof.
  unfold send_and_return, sendMiniKitEvent, sendWebviewEvent.
  destruct (transport_throws _); simpl; repeat split.
Qed.

(** Every entry of [MiniKit.commands] is an executor in the sense of
    [executor_frame]: it only writes to the console and to the transport. *)
Lemma commands_frame (call : CommandCall) : executor_frame (commands call).
Proof.
  intros s. destruct call; simpl;
    unfold commands_verify, commands_pay, commands_walletAuth,
      commands_sendTransaction, commands_signMessage, commands_signTypedData,
      commands_shareContacts, commands_requestPermission,
      commands_getPermissions, commands_sendHapticFeedback, commands_shareFiles;
    repeat match goal with
           | |- context [if ?b then _ else _] => destruct b
           | |- context [match url_protocol ?x with _ => _ end] =>
               destruct (url_protocol x)
           end;
    try apply send_and_return_frame; simpl; repeat split.
Qed.

Lemma commands_return (call : CommandCall) (s : State) :
  (forall e, transport_throws e = false) ->
  exists result, fst (commands call s) = Returned result.
Proof.
  intros Hsend. destruct call; simpl;
    unfold commands_verify, commands_pay, commands_walletAuth,
      commands_sendTransaction, commands_signMessage, commands_signTypedData,
      commands_shareContacts, commands_requestPermission,
      commands_getPermissions, commands_sendHapticFeedback, commands_shareFiles,
      send_and_return, sendMiniKitEvent, sendWebviewEvent;
    repeat match goal with
           | |- context [transport_throws ?e] => rewrite (Hsend e)
           | |- context [if ?b then _ else _] => destruct b
           | |- context [match url_protocol ?x with _ => _ end] =>
               destruct (url_protocol x)
           end;
    simpl; eexists; reflexivity.
Qed.

(** The guard: an entry whose flag the guard finds unset, or that runs where
    there is no [window], returns [null], logs, and sends nothing. *)
Lemma guard_returns_null (call : CommandCall) (s : State) :
  call_guard call s = true ->
  exists entry,
    commands call s = (Returned None, log (ErrorCommandUnavailable entry) s).
Proof.
  destruct call; unfold call_guard; simpl; intros Hg;
    unfold commands_verify, commands_pay, commands_walletAuth,
      commands_sendTransaction, commands_signMessage, commands_signTypedData,
      commands_shareContacts, commands_requestPermission,
      commands_getPermissions, commands_sendHapticFeedback, commands_shareFiles;
    rewrite Hg; eexists; reflexivity.
Qed.

(** C7, what the code does: on the asynchronous call style the proof of an
    [Orb] success is re-encoded twice before the caller sees it, once by the
    wrapper that [subscribe] installs on the verify-action topic and once
    more by [commandsAsync.verify] itself after [awaitCommand] has resolved:
    [finalPayload.proof] is [compressAndPadProof] applied to
    [compressAndPadProof] of the proof the host delivered. *)
Theorem commandsAsync_verify_compresses_twice
    (input : VerifyCommandInput) (s : State) (p : EventPayload)
    (once twice : string) :
  (forall e, transport_throws e = false) ->
  status p = success ->
  verification_level p = Orb ->
  compressAndPadProof (proof p) = Some once ->
  compressAndPadProof once = Some twice ->
  let outer := fst (commandsAsync (CallVerify input) s) in
  let s1 := snd (commandsAsync (CallVerify input) s) in
  let n := length (pending s) in
  let s2 := trigger MiniAppVerifyAction p s1 in
  let s3 := settle (S n) s2 in      (* the wrapper's [then] *)
  let s4 := settle n s3 in          (* [await MiniKit.awaitCommand(...)] *)
  let s5 := settle n s4 in          (* [await compressAndPadProof(...)] *)
  exists commandPayload,
    promiseState outer s5 =
      Some (PromiseResolved {| commandPayload := commandPayload;
                               finalPayload := set_proof twice p |}) /\
    resolveCalls outer s5 = Some 1%nat /\
    pending s5 = pending s.
Proof.
  intros Hsend Hs Hv Hc1 Hc2 outer s1 n s2 s3 s4 s5.
  pose (final := fun result ps (st : State) =>
            promises st =
              (promises s ++
               [{| promise_state :=
                     PromiseResolved
                       {| commandPayload := result;
                          finalPayload := set_proof twice p |};
                   resolve_calls := 1;
                   command_payload_slot := None |}]) ++ ps /\
            pending st = pending s).
  assert (Hfinal : exists result ps,
            final result ps s5 /\ outer = length (promises s)).
  { unfold s5, s4, s3, s2, s1, outer, n, commandsAsync. simpl.
    set (cell0 := {| promise_state := PromisePending; resolve_calls := 0;
                     command_payload_slot := None |}).
    set (sO := set_promises (promises s ++ [cell0]) s).
    set (inner := length (promises sO)).
    destruct (commands_return (CallVerify input)
                (subscribe MiniAppVerifyAction
                   (HandleAndUnsubscribe MiniAppVerifyAction inner)
                   (snd (new_promise sO))) Hsend) as [result Hres].
    destruct (commands (CallVerify input)
                (subscribe MiniAppVerifyAction
                   (HandleAndUnsubscribe MiniAppVerifyAction inner)
                   (snd (new_promise sO)))) as [r s'] eqn:Hexec.
    simpl in Hres. subst r.
    destruct (awaitCommand_returned MiniAppVerifyAction Verify
                (commands (CallVerify input)) result sO s'
                (commands_frame _) Hexec) as (Heq & Hl & Hq & _ & _).
    simpl in Heq. rewrite Heq. simpl.
    exists result.
    destruct s' as [w' av' lis' app' usr' prom' pend' con' snt' cls'].
    simpl in Hl, Hq. subst lis' pend'. clear Heq Hexec.
    unfold trigger, park, set_promises, set_pending. simpl.
    rewrite lookup_insert_eq. simpl. rewrite Hs, Hv.
    unfold park, set_pending. simpl.
    (* the wrapper's then *)
    unfold settle at 3. simpl. rewrite lookup_last2. simpl.
    rewrite delete_last2, Hc1.
    unfold set_pending, invoke, unsubscribe, set_listeners, resolve,
      read_commandPayload, set_promises.
    simpl. rewrite !lookup_last. simpl. rewrite !insert_last.
    (* the await of awaitCommand *)
    unfold settle at 2. simpl. rewrite !lookup_last. simpl.
    rewrite !lookup_last. simpl.
    rewrite Hs, Hv, delete_last. unfold park, set_pending. simpl.
    (* the await of the second re-encoding *)
    unfold settle. simpl. rewrite !lookup_last. simpl.
    rewrite Hc2, delete_last. unfold resolve, set_pending, set_promises. simpl.
    rewrite !lookup_last_but_one. simpl. rewrite !insert_last_but_one.
    unfold final. simpl. eexists. repeat split; reflexivity. }
  destruct Hfinal as (result & ps & (Hp & Hq) & ->).
  exists result. unfold promiseState, resolveCalls. rewrite Hp, Hq.
  rewrite (lookup_app_l_Some _ ps _ _ (lookup_last _ _)).
  repeat split.
Qed.

(** ** Negotiation and the guards *)

Lemma position_in_table (c : Command) : allCommands !! position c = Some c.
Proof. destruct c; reflexivity. Qed.

(** What negotiation leaves behind when the host lacks exactly [X] and
    advertises every other command at the required version: [install]
    reports [AppOutOfDate], and the commands marked available are those
    listed before [X] in [miniKitCommandVersion]; [every] stops at [X], so
    that [X] and all commands after it keep their initial flag. *)
Lemma install_stops_at_first_missing_command (X : Command) (a : option string) :
  transport_throws (InitMessage MINIKIT_VERSION) = false ->
  let r := install a (initialState (windowWith (Some (hostLacking X)))) in
  fst r = InstallFailure AppOutOfDate /\
  map (fun c => available c (snd r)) allCommands
    = map (fun c => (position c <? position X)%nat) allCommands.
Proof.
  intros Hsend. unfold install. simpl. unfold sendInit, sendWebviewEvent.
  rewrite Hsend.
  destruct a as [[|ch a']|]; destruct X; vm_compute; split; reflexivity.
Qed.

(** The guard of every entry but [shareContacts] reads the entry's own flag:
    with that flag unset, or with no [window], the entry returns [null], logs
    and hands nothing to the transport. *)
Lemma guard_blocks_unavailable_entry (call : CommandCall) (s : State) :
  commandOf call <> ShareContacts ->
  unavailable (commandOf call) s = true ->
  exists entry,
    commands call s = (Returned None, log (ErrorCommandUnavailable entry) s) /\
    sent (snd (commands call s)) = sent s.
Proof.
  intros Hne Hu.
  assert (Hg : call_guard call s = true).
  { unfold call_guard. destruct call; simpl in *; try assumption. congruence. }
  destruct (guard_returns_null call s Hg) as [entry He].
  exists entry. rewrite He. split; reflexivity.
Qed.

(** C4, where the code departs from it: the guard of [shareContacts] reads
    the flag of [sign-typed-data].  In a window where [sign-typed-data] is
    available and [share-contacts] is not, the entry does not return [null]:
    it hands the envelope to the transport and returns the payload. *)
Theorem shareContacts_guard_reads_signTypedData (payload : Json) (s : State) :
  window s <> None ->
  available SignTypedData s = true ->
  available ShareContacts s = false ->
  transport_throws
    (CommandMessage ShareContacts 1 (InputPayload payload)) = false ->
  commands (CallShareContacts payload) s =
    (Returned (Some (InputPayload payload)),
     record_sent (CommandMessage ShareContacts 1 (InputPayload payload)) s).
Proof.
  intros Hw Hsign _ Hsend. simpl.
  unfold commands_shareContacts, unavailable.
  destruct (window s); [|congruence]. rewrite Hsign. simpl.
  unfold send_and_return, sendMiniKitEvent, sendWebviewEvent. simpl.
  rewrite Hsend. reflexivity.
Qed.

End Properties.

(** * The model on explicit inputs *)

Section Scenarios.
Local Existing Instance sampleCollaborators.

(** C1, where the code departs from it.  The host lacks [verify] and
    advertises every other command at version 1.  [install] reports
    [AppOutOfDate] and [verify] is unavailable, but so is every other
    command: [every] stopped at [verify], the first row of the table, before
    any flag was set. *)
Theorem install_host_lacking_verify :
  map name (supported_commands (hostLacking Verify)) =
    map commandName
      [Pay; WalletAuth; SendTransaction; SignMessage; SignTypedData;
       ShareContacts; RequestPermission; GetPermissions; SendHapticFeedback;
       ShareFiles] /\
  forallb (fun command => includes 1 (supported_versions command))
    (supported_commands (hostLacking Verify)) = true /\
  fst (install (Some "app_1")
         (initialState (windowWith (Some (hostLacking Verify)))))
    = InstallFailure AppOutOfDate /\
  available Verify (installedLacking Verify) = false /\
  map (fun c => available c (installedLacking Verify)) allCommands
    = map (fun _ => false) allCommands.
Proof. vm_compute. repeat split. Qed.

Lemma install_without_window_witness :
  install (Some "app_1") (initialState None)
    = (InstallFailure AlreadyInstalled, initialState None).
Proof. apply install_without_window. reflexivity. Defined.

Lemma install_outside_world_app_records_appId_witness :
  install (Some "app_1") browserState
    = (InstallFailure OutsideOfWorldApp, set_appId (Some "app_1") browserState) /\
  appId (snd (install (Some "app_1") browserState)) = Some "app_1".
Proof.
  apply (install_outside_world_app_records_appId "app_1" browserState
           {| window_MiniKit := false; window_WorldApp := None |}).
  - discriminate.
  - reflexivity.
  - reflexivity.
  - reflexivity.
Defined.

Lemma subscribe_replaces_witness :
  calls (trigger MiniAppPayment errorPayload
           (subscribe MiniAppPayment (CallerHandler 2)
              (subscribe MiniAppPayment (CallerHandler 1) browserState)))
    = [(2%nat, errorPayload)] /\
  calls (settle 0
           (trigger MiniAppVerifyAction orbSuccess
              (subscribe MiniAppVerifyAction (CallerHandler 2)
                 (subscribe MiniAppVerifyAction (CallerHandler 1) browserState))))
    = [(2%nat, {| status := success; verification_level := Orb;
                  proof := "c0x01"; address := "0xA"; rest := "" |})] /\
  calls (settle 0
           (trigger MiniAppWalletAuth orbSuccess
              (subscribe MiniAppWalletAuth (CallerHandler 2)
                 (subscribe MiniAppWalletAuth (CallerHandler 1) browserState))))
    = [(2%nat, orbSuccess)] /\
  calls (@settle rejectingCompression 0
           (trigger MiniAppVerifyAction orbSuccess2
              (subscribe MiniAppVerifyAction (CallerHandler 2)
                 (subscribe MiniAppVerifyAction (CallerHandler 1) browserState))))
    = [].
Proof.
  split; [|split; [|split]].
  - destruct (subscribe_replaces MiniAppPayment (CallerHandler 1)
                (CallerHandler 2) errorPayload browserState)
      as (_ & _ & _ & Hcalls & _).
    exact (Hcalls 2%nat eq_refl).
  - destruct (subscribe_replaces MiniAppVerifyAction (CallerHandler 1)
                (CallerHandler 2) orbSuccess browserState)
      as (_ & _ & _ & _ & _ & Hdelivery).
    destruct (Hdelivery 2%nat eq_refl) as (_ & Hverify & _).
    exact (proj2 (proj2 (proj2 (Hverify eq_refl eq_refl eq_refl)))).
  - destruct (subscribe_replaces MiniAppWalletAuth (CallerHandler 1)
                (CallerHandler 2) orbSuccess browserState)
      as (_ & _ & _ & _ & _ & Hdelivery).
    destruct (Hdelivery 2%nat eq_refl) as (_ & _ & Hauth & _).
    exact (proj2 (proj2 (proj2 (Hauth eq_refl eq_refl)))).
  - destruct (@subscribe_replaces rejectingCompression MiniAppVerifyAction
                (CallerHandler 1) (CallerHandler 2) orbSuccess2 browserState)
      as (_ & _ & _ & _ & _ & Hdelivery).
    destruct (Hdelivery 2%nat eq_refl) as (_ & Hverify & _).
    exact (proj2 (proj2 (proj2 (Hverify eq_refl eq_refl eq_refl)))).
Defined.

(** C8, the case the code does not bear out: on the class as loaded, with no
    handler ever subscribed, [trigger] logs nothing. *)
Lemma trigger_before_any_subscribe_logs_nothing :
  console (trigger MiniAppPayment errorPayload browserState) = [] /\
  trigger MiniAppPayment errorPayload browserState = browserState.
Proof. vm_compute. split; reflexivity. Qed.

Lemma trigger_without_subscriber_witness :
  trigger MiniAppPayment errorPayload (unsubscribe MiniAppPayment browserState)
    = log (ErrorNoHandler MiniAppPayment errorPayload)
        (unsubscribe MiniAppPayment browserState) /\
  trigger MiniAppSignMessage errorPayload browserState = browserState.
Proof.
  destruct (trigger_without_subscriber MiniAppPayment errorPayload
              browserState None) as (Hu & _).
  destruct (trigger_without_subscriber MiniAppSignMessage errorPayload
              browserState None) as (_ & _ & _ & _ & _ & Hnoop).
  split; [exact Hu|]. apply Hnoop. vm_compute. reflexivity.
Defined.

Lemma verify_action_transform_witness :
  trigger MiniAppVerifyAction orbSuccess
    (subscribe MiniAppVerifyAction (CallerHandler 1) browserState)
  = park (ThenCompressed orbSuccess (CallerHandler 1))
      (subscribe MiniAppVerifyAction (CallerHandler 1) browserState) /\
  calls (trigger MiniAppVerifyAction errorPayload
           (subscribe MiniAppVerifyAction (CallerHandler 1) browserState))
  = [(1%nat, errorPayload)] /\
  calls (trigger MiniAppVerifyAction orbSuccess
           (subscribe MiniAppVerifyAction (CallerHandler 1) browserState))
  = [] /\
  calls (settle 0
           (trigger MiniAppVerifyAction orbSuccess
              (subscribe MiniAppVerifyAction (CallerHandler 1) browserState)))
  = [(1%nat, {| status := success; verification_level := Orb;
                proof := "c0x01"; address := "0xA"; rest := "" |})] /\
  calls (@settle rejectingCompression 0
           (trigger MiniAppVerifyAction orbSuccess2
              (subscribe MiniAppVerifyAction (CallerHandler 1) browserState)))
  = [].
Proof.
  destruct (verify_action_transform (CallerHandler 1) orbSuccess browserState)
    as (Horb & _ & _).
  destruct (Horb eq_refl eq_refl) as (Hpark & Hnone & _ & _ & Hcaller).
  destruct (verify_action_transform (CallerHandler 1) errorPayload browserState)
    as (_ & _ & Herror).
  destruct (@verify_action_transform rejectingCompression (CallerHandler 1)
              orbSuccess2 browserState) as (Hrejected & _ & _).
  destruct (Hrejected eq_refl eq_refl) as (_ & _ & _ & _ & Hnever).
  split; [exact Hpark|]. split; [|split; [exact Hnone|split]].
  - apply (Herror 1%nat eq_refl). intros [Hs _]. discriminate Hs.
  - exact (proj1 (proj2 (Hcaller 1%nat eq_refl))).
  - exact (proj1 (proj2 (Hnever 1%nat eq_refl))).
Defined.

(** C5, where the code departs from it: when [trigger] has returned from a
    wallet-auth success event, the caller's handler has not run; it runs when
    the profile lookup has settled. *)
Lemma wallet_auth_handler_not_called_before_lookup_settles :
  calls (trigger MiniAppWalletAuth orbSuccess
           (subscribe MiniAppWalletAuth (CallerHandler 1) browserState)) = [] /\
  pending (trigger MiniAppWalletAuth orbSuccess
             (subscribe MiniAppWalletAuth (CallerHandler 1) browserState))
    = [AwaitUserByAddress orbSuccess (CallerHandler 1)] /\
  calls (settle 0
           (trigger MiniAppWalletAuth orbSuccess
              (subscribe MiniAppWalletAuth (CallerHandler 1) browserState)))
    = [(1%nat, orbSuccess)].
Proof. vm_compute. repeat split. Qed.

Lemma wallet_auth_handler_waits_for_lookup_witness :
  trigger MiniAppWalletAuth orbSuccess
    (subscribe MiniAppWalletAuth (CallerHandler 1) browserState)
  = park (AwaitUserByAddress orbSuccess (CallerHandler 1))
      (set_walletAddress "0xA"
         (subscribe MiniAppWalletAuth (CallerHandler 1) browserState)).
Proof.
  exact (proj1 (wallet_auth_handler_waits_for_lookup (CallerHandler 1)
                  orbSuccess browserState eq_refl)).
Defined.

(** C3, where the code departs from it.  [awaitCommand] is pending on the
    verify-action topic; the host delivers an [Orb] success and then, before
    the re-encoding of its proof has settled, an error event.  The promise
    is not resolved by the first event: it is resolved by the second, with
    the second event's payload, and when the re-encoding settles the handler
    runs again and calls [resolve] a second time. *)
Lemma awaitCommand_resolved_by_second_event :
  promiseState (fst awaitingVerify)
    (trigger MiniAppVerifyAction orbSuccess (snd awaitingVerify))
    = Some PromisePending /\
  promiseState (fst awaitingVerify)
    (trigger MiniAppVerifyAction errorPayload
       (trigger MiniAppVerifyAction orbSuccess (snd awaitingVerify)))
    = Some (PromiseResolved
              {| commandPayload :=
                   Some (VerifyCommandPayload "vote" "" Orb
                           "2024-01-01T00:00:00.000Z");
                 finalPayload := errorPayload |}) /\
  resolveCalls (fst awaitingVerify)
    (settle 0
       (trigger MiniAppVerifyAction errorPayload
          (trigger MiniAppVerifyAction orbSuccess (snd awaitingVerify))))
    = Some 2%nat.
Proof. vm_compute. repeat split. Qed.

Lemma awaitCommand_resolution_witness :
  promiseState 0
    (trigger MiniAppGetPermissions errorPayload
       (snd (awaitCommand MiniAppGetPermissions GetPermissions
               (commands CallGetPermissions) browserState)))
  = Some (PromiseResolved {| commandPayload := None;
                             finalPayload := errorPayload |}).
Proof.
  destruct (awaitCommand_resolution MiniAppGetPermissions GetPermissions
              (commands CallGetPermissions) None browserState
              (log (ErrorCommandUnavailable "getPermissions")
                 (subscribe MiniAppGetPermissions
                    (HandleAndUnsubscribe MiniAppGetPermissions 0)
                    (snd (new_promise browserState))))
              errorPayload (commands_frame _) eq_refl)
    as (_ & _ & _ & Hsync & _).
  exact (proj1 (proj1 (Hsync eq_refl))).
Defined.

Lemma shareContacts_guard_reads_signTypedData_witness :
  available ShareContacts (installedLacking ShareContacts) = false /\
  commands (CallShareContacts "{}") (installedLacking ShareContacts) =
    (Returned (Some (InputPayload "{}")),
     record_sent (CommandMessage ShareContacts 1 (InputPayload "{}"))
       (installedLacking ShareContacts)).
Proof.
  split.
  - vm_compute. reflexivity.
  - apply shareContacts_guard_reads_signTypedData.
    + vm_compute. discriminate.
    + vm_compute. reflexivity.
    + vm_compute. reflexivity.
    + reflexivity.
Defined.

Lemma commandsAsync_verify_compresses_twice_witness :
  exists commandPayload,
    promiseState (fst (commandsAsync (CallVerify verifyInput) installedState))
      (settle 0 (settle 0 (settle 1
         (trigger MiniAppVerifyAction orbSuccess
            (snd (commandsAsync (CallVerify verifyInput) installedState))))))
    = Some (PromiseResolved
              {| commandPayload := commandPayload;
                 finalPayload := set_proof "cc0x01" orbSuccess |}) /\
    compressAndPadProof (proof orbSuccess) = Some "c0x01".
Proof.
  assert (Hsend : forall e, transport_throws e = false)
    by (intros e; reflexivity).
  destruct (commandsAsync_verify_compresses_twice verifyInput installedState
              orbSuccess "c0x01" "cc0x01"
              Hsend eq_refl eq_refl eq_refl eq_refl)
    as (commandPayload & Hp & _).
  exists commandPayload. split; [exact Hp | reflexivity].
Defined.

End Scenarios.

(** * Further properties *)

Section Negotiation.
Context `{Collaborators}.

Lemma every_commandValid_result (cs : list SupportedCommand)
    (l : list (string * Z)) (s : State) :
  fst (every (commandValid cs) l s) = forallb (hostSupports cs) l.
Proof.
  revert s. induction l as [|[n v] l IH]; intros s; simpl; [reflexivity|].
  unfold hostSupports. simpl.
  destruct (find (fun command => String.eqb (name command) n) cs) as [ci|];
    simpl; [|reflexivity].
  destruct (includes v (supported_versions ci)); simpl; [apply IH|reflexivity].
Qed.

Lemma includes_elem_of (v : Z) (l : list Z) : includes v l = true <-> v ∈ l.
Proof.
  unfold includes. rewrite existsb_exists. split.
  - intros (x & Hin & Heq). apply Z.eqb_eq in Heq. subst x.
    apply list_elem_of_In. exact Hin.
  - intros Hin. exists v. split; [apply list_elem_of_In; exact Hin|].
    apply Z.eqb_refl.
Qed.

Lemma every_commandValid_flags (cs : list SupportedCommand)
    (l : list (string * Z)) (s : State) (n : string) :
  isCommandAvailable (snd (every (commandValid cs) l s)) !! n =
  if marks cs l n then Some true else isCommandAvailable s !! n.
Proof.
  revert s. induction l as [|[m v] l IH]; intros s; simpl; [reflexivity|].
  unfold hostSupports, hostLists. simpl.
  destruct (String.eqb_spec m n) as [->|Hne]; simpl.
  - destruct (find (fun command => String.eqb (name command) n) cs) as [ci|];
      simpl; [|reflexivity].
    destruct (includes v (supported_versions ci)); simpl.
    + rewrite IH. simpl. rewrite lookup_insert_eq.
      destruct (marks cs l n); reflexivity.
    + apply lookup_insert_eq.
  - destruct (find (fun command => String.eqb (name command) m) cs) as [ci|];
      simpl; [|reflexivity].
    destruct (includes v (supported_versions ci)); simpl.
    + rewrite IH. simpl. rewrite lookup_insert_ne by exact Hne. reflexivity.
    + apply lookup_insert_ne. exact Hne.
Qed.

Lemma marks_absent (cs : list SupportedCommand) (l : list (string * Z))
    (n : string) :
  n ∉ l.*1 -> marks cs l n = false.
Proof.
  induction l as [|[m v] l IH]; simpl; intros Hn; [reflexivity|].
  apply not_elem_of_cons in Hn as [Hne Hn].
  destruct (String.eqb_spec m n) as [->|_]; [congruence|]. simpl.
  rewrite (IH Hn). apply andb_false_r.
Qed.

Lemma marks_at (cs : list SupportedCommand) (l1 l2 : list (string * Z))
    (n : string) (v : Z) :
  n ∉ l1.*1 -> n ∉ l2.*1 ->
  marks cs (l1 ++ (n, v) :: l2) n
  = hostLists cs n && forallb (hostSupports cs) l1.
Proof.
  intros Hn1 Hn2. induction l1 as [|[m w] l1 IH]; simpl.
  - rewrite String.eqb_refl. simpl. rewrite (marks_absent _ _ _ Hn2).
    rewrite andb_false_r, orb_false_r, andb_true_r. reflexivity.
  - simpl in Hn1. apply not_elem_of_cons in Hn1 as [Hne Hn1].
    destruct (String.eqb_spec m n) as [->|_]; [congruence|]. simpl.
    rewrite (IH Hn1).
    destruct (hostSupports cs (m, w)), (hostLists cs n); reflexivity.
Qed.

Lemma table_split (c : Command) :
  miniKitCommandVersion_entries =
  take (position c) miniKitCommandVersion_entries
  ++ (commandName c, miniKitCommandVersion c)
  :: drop (S (position c)) miniKitCommandVersion_entries /\
  (commandName c ∉ (fst <$> take (position c) miniKitCommandVersion_entries)) /\
  (commandName c
     ∉ (fst <$> drop (S (position c)) miniKitCommandVersion_entries)).
Proof.
  destruct c; (split; [reflexivity|]); split;
    rewrite list_elem_of_In; vm_compute; intuition discriminate.
Qed.

(** Every row of the table is supported, spelled out. *)
Lemma supported_all_iff (cs : list SupportedCommand) :
  forallb (hostSupports cs) miniKitCommandVersion_entries = true <->
  forall c : Command,
    exists commandInput,
      find (fun command => String.eqb (name command) (commandName c)) cs
        = Some commandInput /\
      miniKitCommandVersion c ∈ supported_versions commandInput.
Proof.
  rewrite forallb_forall. split.
  - intros Hall c.
    assert (Hin : In (commandName c, miniKitCommandVersion c)
                    miniKitCommandVersion_entries)
      by (destruct c; simpl; tauto).
    specialize (Hall _ Hin).
    unfold hostSupports in Hall. simpl in Hall.
    destruct (find _ cs) as [ci|]; [|discriminate Hall].
    exists ci. split; [reflexivity|]. apply includes_elem_of, Hall.
  - intros Hall [n v] Hin.
    assert (Hc : exists c, (n, v) = (commandName c, miniKitCommandVersion c)).
    { simpl in Hin.
      repeat (destruct Hin as [Hin|Hin];
              [rewrite <- Hin;
               first [ exists Verify; reflexivity | exists Pay; reflexivity
                     | exists WalletAuth; reflexivity
                     | exists SendTransaction; reflexivity
                     | exists SignMessage; reflexivity
                     | exists SignTypedData; reflexivity
                     | exists ShareContacts; reflexivity
                     | exists RequestPermission; reflexivity
                     | exists GetPermissions; reflexivity
                     | exists SendHapticFeedback; reflexivity
                     | exists ShareFiles; reflexivity ]|]).
      destruct Hin. }
    destruct Hc as [c Hc]. inversion Hc; subst. clear Hc.
    destruct (Hall c) as (ci & Hf & Hv).
    unfold hostSupports. simpl. rewrite Hf. apply includes_elem_of, Hv.
Qed.

Lemma commandsValid_result_iff (cs : list SupportedCommand) (s : State) :
  fst (commandsValid cs s) = true <->
  forall c : Command,
    exists commandInput,
      find (fun command => String.eqb (name command) (commandName c)) cs
        = Some commandInput /\
      miniKitCommandVersion c ∈ supported_versions commandInput.
Proof.
  unfold commandsValid. rewrite every_commandValid_result.
  apply supported_all_iff.
Qed.

(** X1.  The result of [commandsValid] depends on the descriptor alone: it is
    [true] exactly when, for every known command, the first entry of the
    descriptor that bears the command's name lists the version the bridge
    requires.  Later entries of the same name are not looked at. *)
Theorem commandsValid_true_iff (cs : list SupportedCommand) (s : State) :
  fst (commandsValid cs s) = true <->
  forall c : Command,
    exists commandInput,
      find (fun command => String.eqb (name command) (commandName c)) cs
        = Some commandInput /\
      miniKitCommandVersion c ∈ supported_versions commandInput.
Proof.
  assert (Hpure : fst (commandsValid cs s)
                  = forallb (hostSupports cs) miniKitCommandVersion_entries)
    by apply every_commandValid_result.
  rewrite Hpure. apply supported_all_iff.
Qed.

(** The flags after [commandsValid], read off the descriptor. *)
Lemma commandsValid_flags (cs : list SupportedCommand) (s : State)
    (c : Command) :
  available c (snd (commandsValid cs s)) =
  available c s
  || (hostLists cs (commandName c)
      && forallb (hostSupports cs)
           (take (position c) miniKitCommandVersion_entries)).
Proof.
  unfold available, commandsValid. rewrite every_commandValid_flags.
  destruct (table_split c) as (Hsplit & Hn1 & Hn2).
  rewrite Hsplit at 1. rewrite (marks_at _ _ _ _ _ Hn1 Hn2).
  destruct (hostLists cs (commandName c)
            && forallb (hostSupports cs)
                 (take (position c) miniKitCommandVersion_entries)); simpl.
  - rewrite orb_true_r. reflexivity.
  - rewrite orb_false_r. reflexivity.
Qed.

(** X2.  The flags after [commandsValid], for any descriptor: a command is
    available afterwards exactly if it was available before, or the host
    lists it (at whatever versions) and every command before it in
    [miniKitCommandVersion] is supported at the required version.  The
    command's own version plays no part, and a command after the first
    unsupported one is never marked. *)
Theorem commandsValid_availability (cs : list SupportedCommand) (s : State)
    (c : Command) :
  available c (snd (commandsValid cs s)) =
  available c s
  || (hostLists cs (commandName c)
      && forallb (hostSupports cs)
           (take (position c) miniKitCommandVersion_entries)).
Proof.
  unfold available, commandsValid. rewrite every_commandValid_flags.
  destruct (table_split c) as (Hsplit & Hn1 & Hn2).
  rewrite Hsplit at 1. rewrite (marks_at _ _ _ _ _ Hn1 Hn2).
  destruct (hostLists cs (commandName c)
            && forallb (hostSupports cs)
                 (take (position c) miniKitCommandVersion_entries)); simpl.
  - rewrite orb_true_r. reflexivity.
  - rewrite orb_false_r. reflexivity.
Qed.

End Negotiation.

Section Installation.
Context `{Collaborators}.

Lemma invoke_installation (h : Handler) (p : EventPayload) (s : State) :
  installation (invoke h p s) = installation s.
Proof.
  revert s. induction h as [| id | event pid | h IH | h IH]; intros s; simpl;
    try reflexivity.
  - unfold resolve. simpl. destruct (promises s !! pid); reflexivity.
  - destruct (status p); [reflexivity|apply IH].
  - destruct (status p); [|apply IH].
    destruct (verification_level p); [reflexivity|apply IH].
Qed.

Lemma trigger_installation (event : ResponseEvent) (p : EventPayload) (s : State) :
  installation (trigger event p s) = installation s.
Proof.
  unfold trigger. destruct (listeners s !! event);
    [apply invoke_installation|reflexivity].
Qed.

Lemma settle_installation (i : nat) (s : State) :
  installation (settle i s) = installation s.
Proof.
  unfold settle. destruct (pending s !! i) as [t|]; [|reflexivity].
  destruct (ready t s); [|reflexivity].
  destruct t as [p h | p h | command inner outer | response outer]; simpl.
  - rewrite invoke_installation.
    destruct (getUserProfile (address p)); reflexivity.
  - destruct (compressAndPadProof (proof p)); [|reflexivity].
    rewrite invoke_installation. reflexivity.
  - destruct (promise_state <$> promises s !! inner) as [[| response |]|];
      try reflexivity.
    + destruct command; try (unfold resolve; simpl;
        destruct (promises s !! outer); reflexivity).
      destruct (status (finalPayload response));
        [destruct (verification_level (finalPayload response))|];
        try reflexivity;
        unfold resolve; simpl; destruct (promises s !! outer); reflexivity.
    + unfold reject. simpl. destruct (promises s !! outer); reflexivity.
  - destruct (compressAndPadProof (proof (finalPayload response)));
      [unfold resolve|unfold reject]; simpl;
      destruct (promises s !! outer); reflexivity.
Qed.

Lemma commands_installation (call : CommandCall) (s : State) :
  installation (snd (commands call s)) = installation s.
Proof.
  destruct call; simpl;
    unfold commands_verify, commands_pay, commands_walletAuth,
      commands_sendTransaction, commands_signMessage, commands_signTypedData,
      commands_shareContacts, commands_requestPermission,
      commands_getPermissions, commands_sendHapticFeedback, commands_shareFiles,
      send_and_return, sendMiniKitEvent, sendWebviewEvent;
    repeat match goal with
           | |- context [if ?b then _ else _] => destruct b
           | |- context [match url_protocol ?x with _ => _ end] =>
               destruct (url_protocol x)
           end;
    reflexivity.
Qed.

Lemma commandsAsync_installation (call : CommandCall) (s : State) :
  installation (snd (commandsAsync call s)) = installation s.
Proof.
  unfold commandsAsync, awaitCommand, new_promise. simpl.
  match goal with
  | |- context [commands call ?st] =>
      pose proof (commands_installation call st) as Hc;
      destruct (commands call st) as [r s'] eqn:E
  end.
  simpl in Hc. destruct r; simpl.
  - unfold assign_commandPayload. destruct (promises s' !! _); simpl; exact Hc.
  - unfold reject. destruct (promises s' !! _); simpl; exact Hc.
Qed.

(** The one step that writes to [window] is an [install] that passes the
    host check: it sets [window.MiniKit] and leaves [window.WorldApp]. *)
Lemma step_window (a : Action) (s : State) :
  window (step a s) = window s \/
  exists app,
    window s = Some {| window_MiniKit := false; window_WorldApp := Some app |} /\
    window (step a s)
      = Some {| window_MiniKit := true; window_WorldApp := Some app |}.
Proof.
  destruct a as [a | event id | event | event p | call | call | i]; simpl.
  - unfold install.
    destruct (window s) as [[k oapp]|] eqn:Hw; simpl; [|left; exact Hw].
    destruct k; simpl; [left; exact Hw|].
    destruct oapp as [app|]; simpl;
      [|left; destruct a as [[|ch a']|]; exact Hw].
    right. exists app. split; [reflexivity|].
    unfold sendInit, sendWebviewEvent.
    destruct (transport_throws (InitMessage MINIKIT_VERSION)); simpl;
      [destruct a as [[|ch a']|]; reflexivity|].
    match goal with
    | |- context [commandsValid ?cs ?st] =>
        assert (Hcv : window (snd (commandsValid cs st)) = window st);
        [|destruct (commandsValid cs st) as [valid s5] eqn:E]
    end.
    + unfold commandsValid.
      generalize miniKitCommandVersion_entries.
      match goal with |- forall l, window (snd (every _ l ?st)) = _ =>
        generalize st end.
      intros st l. revert st.
      induction l as [|[n v] l IH]; intros st; simpl; [reflexivity|].
      destruct (find _ (supported_commands app)) as [ci|]; simpl;
        [|reflexivity].
      destruct (includes v (supported_versions ci)); simpl; [|reflexivity].
      rewrite IH. reflexivity.
    + simpl in Hcv. destruct valid; simpl; rewrite Hcv;
        destruct a as [[|ch a']|]; reflexivity.
  - left. reflexivity.
  - left. reflexivity.
  - left. exact (f_equal (fun x => fst (fst x)) (trigger_installation event p s)).
  - left. exact (f_equal (fun x => fst (fst x)) (commands_installation call s)).
  - left. exact (f_equal (fun x => fst (fst x)) (commandsAsync_installation call s)).
  - left. exact (f_equal (fun x => fst (fst x)) (settle_installation i s)).
Qed.

Lemma commandsValid_beside (cs : list SupportedCommand) (s : State) :
  beside_negotiation (snd (commandsValid cs s)) = beside_negotiation s.
Proof.
  unfold commandsValid. generalize miniKitCommandVersion_entries. intros l.
  revert s. induction l as [|[n v] l IH]; intros s; simpl; [reflexivity|].
  destruct (find _ cs) as [ci|]; simpl; [|reflexivity].
  destruct (includes v (supported_versions ci)); simpl; [|reflexivity].
  rewrite IH. reflexivity.
Qed.

(** [install] from the host check on, in a window where the bridge is not
    registered, the host is present and the transport takes the [init]
    message. *)
Lemma install_negotiates (a : option string) (s : State) (app : WorldApp) :
  window s = Some {| window_MiniKit := false; window_WorldApp := Some app |} ->
  transport_throws (InitMessage MINIKIT_VERSION) = false ->
  let s4 :=
    record_sent (InitMessage MINIKIT_VERSION)
      (set_window (Some {| window_MiniKit := true; window_WorldApp := Some app |})
         (set_user_properties app (record_appId a s))) in
  let negotiated := commandsValid (supported_commands app) s4 in
  install a s =
    if fst negotiated then (InstallSuccess, set_user_properties app (snd negotiated))
    else (InstallFailure AppOutOfDate, snd negotiated).
Proof.
  intros Hw Hsend. unfold install. rewrite Hw. simpl.
  unfold sendInit, sendWebviewEvent. rewrite Hsend.
  change (match a with
          | Some "" | None => log WarnAppIdNotProvided s
          | Some (String a0 s0) => set_appId (Some (String a0 s0)) s
          end) with (record_appId a s).
  destruct (commandsValid _ _) as [valid s5]. destruct valid; reflexivity.
Qed.

Lemma forallb_take {A : Type} (f : A -> bool) (l : list A) (n : nat) :
  forallb f l = true -> forallb f (take n l) = true.
Proof.
  revert n. induction l as [|x l IH]; intros [|n]; simpl; try reflexivity.
  intros Hf. apply andb_true_iff in Hf as [Hx Hl].
  rewrite Hx, (IH n Hl). reflexivity.
Qed.

(** What a successful [install] found. *)
Lemma install_success_inv (a : option string) (s : State) :
  fst (install a s) = InstallSuccess ->
  exists app,
    window s = Some {| window_MiniKit := false; window_WorldApp := Some app |} /\
    transport_throws (InitMessage MINIKIT_VERSION) = false /\
    forall c : Command,
      exists commandInput,
        find (fun command => String.eqb (name command) (commandName c))
          (supported_commands app) = Some commandInput /\
        miniKitCommandVersion c ∈ supported_versions commandInput.
Proof.
  intros Hok. unfold install in Hok.
  destruct (window s) as [[k oapp]|] eqn:Hw; simpl in Hok; [|discriminate].
  destruct k; [discriminate|]. destruct oapp as [app|]; [|discriminate].
  exists app. split; [reflexivity|].
  unfold sendInit, sendWebviewEvent in Hok.
  destruct (transport_throws (InitMessage MINIKIT_VERSION)); [discriminate|].
  split; [reflexivity|].
  match type of Hok with
  | context [commandsValid ?cs ?st] =>
      apply (commandsValid_result_iff cs st);
      destruct (commandsValid cs st) as [valid s5]
  end.
  destruct valid; [reflexivity|discriminate].
Qed.

(** X3.  [install] succeeds exactly when there is a window in which the bridge
    is not yet registered, the host object is present, the transport takes
    the [init] message, and the host supports every known command (first
    entry of that name, required version). *)
Theorem install_succeeds_iff (a : option string) (s : State) :
  fst (install a s) = InstallSuccess <->
  exists app,
    window s = Some {| window_MiniKit := false; window_WorldApp := Some app |} /\
    transport_throws (InitMessage MINIKIT_VERSION) = false /\
    forall c : Command,
      exists commandInput,
        find (fun command => String.eqb (name command) (commandName c))
          (supported_commands app) = Some commandInput /\
        miniKitCommandVersion c ∈ supported_versions commandInput.
Proof.
  split; [apply install_success_inv|].
  intros (app & Hw & Hsend & Hall).
  rewrite (install_negotiates a s app Hw Hsend).
  match goal with
  | |- context [commandsValid ?cs ?st] =>
      rewrite (proj2 (commandsValid_result_iff cs st) Hall)
  end.
  reflexivity.
Qed.

(** X4.  After a successful [install], every command is available, the bridge
    is registered in the window and [isInstalled] says so without logging,
    exactly one message has been sent (the [init] message), the three host
    fields have been copied into the user, and the event bus, the promises
    and the caller-visible calls are as before. *)
Theorem install_success_state (a : option string) (s : State) :
  fst (install a s) = InstallSuccess ->
  let s' := snd (install a s) in
  exists app,
    window s = Some {| window_MiniKit := false; window_WorldApp := Some app |} /\
    (forall c, available c s' = true) /\
    window s' = Some {| window_MiniKit := true; window_WorldApp := Some app |} /\
    isInstalled false s' = Some (true, []) /\
    sent s' = sent s ++ [InitMessage 1] /\
    optedIntoOptionalAnalytics (user s') = Some (is_optional_analytics app) /\
    deviceOS (user s') = Some (device_os app) /\
    worldAppVersion (user s') = Some (world_app_version app) /\
    walletAddress (user s') = walletAddress (user s) /\
    listeners s' = listeners s /\ promises s' = promises s /\
    pending s' = pending s /\ calls s' = calls s.
Proof.
  intros Hok s'. destruct (install_success_inv a s Hok)
    as (app & Hw & Hsend & Hall).
  exists app. split; [exact Hw|].
  unfold s'. rewrite (install_negotiates a s app Hw Hsend).
  match goal with
  | |- context [commandsValid ?cs ?st] =>
      pose proof (commandsValid_beside cs st) as Hb;
      pose proof (fun c => commandsValid_flags cs st c) as Hav;
      pose proof (proj2 (commandsValid_result_iff cs st) Hall) as Hv;
      pose proof Hv as Hv';
      unfold commandsValid in Hv'; rewrite every_commandValid_result in Hv';
      destruct (commandsValid cs st) as [valid s5]
  end.
  simpl in Hb, Hav, Hv. subst valid. simpl.
  unfold beside_negotiation in Hb. simpl in Hb.
  injection Hb as Hb1 Hb2 Hb3 Hb4 Hb5 Hb6 Hb7 Hb8.
  split.
  { intros c. unfold available in *. simpl. specialize (Hav c).
    rewrite Hav. rewrite (forallb_take _ _ _ Hv'), andb_true_r.
    assert (Hl : hostLists (supported_commands app) (commandName c) = true).
    { destruct (Hall c) as (ci & Hf & _). unfold hostLists. rewrite Hf.
      reflexivity. }
    rewrite Hl. apply orb_true_r. }
  unfold isInstalled. simpl. rewrite Hb1, Hb4, Hb7.
  destruct a as [[|ch a']|]; simpl; repeat split; assumption.
Qed.

Lemma install_refused (a : option string) (s : State) :
  window s = None \/ registered s = true ->
  install a s = (InstallFailure AlreadyInstalled, s).
Proof.
  unfold registered, install. intros [Hw|Hr].
  - rewrite Hw. reflexivity.
  - destruct (window s) as [w|]; [|discriminate]. rewrite Hr. reflexivity.
Qed.

Lemma install_outside (a : option string) (s : State) :
  window s = Some {| window_MiniKit := false; window_WorldApp := None |} ->
  install a s = (InstallFailure OutsideOfWorldApp, record_appId a s).
Proof.
  intros Hw. unfold install. rewrite Hw. simpl.
  destruct a as [[|ch a']|]; reflexivity.
Qed.

(** Where [install] leaves the window, by its outcome. *)
Lemma install_window (a : option string) (s : State) :
  match fst (install a s) with
  | InstallFailure OutsideOfWorldApp =>
      window (snd (install a s))
        = Some {| window_MiniKit := false; window_WorldApp := None |}
  | _ => window (snd (install a s)) = None \/
         registered (snd (install a s)) = true
  end.
Proof.
  destruct (window s) as [[k oapp]|] eqn:Hw.
  - destruct k.
    + rewrite install_refused by (right; unfold registered; rewrite Hw; reflexivity).
      simpl. right. unfold registered. rewrite Hw. reflexivity.
    + destruct oapp as [app|].
      * destruct (transport_throws (InitMessage MINIKIT_VERSION)) eqn:Hsend.
        -- unfold install. rewrite Hw. simpl. unfold sendInit, sendWebviewEvent.
           rewrite Hsend. simpl. right. reflexivity.
        -- rewrite (install_negotiates a s app Hw Hsend).
           match goal with
           | |- context [commandsValid ?cs ?st] =>
               pose proof (commandsValid_beside cs st) as Hb;
               destruct (commandsValid cs st) as [valid s5]
           end.
           unfold beside_negotiation in Hb. simpl in Hb.
           injection Hb as Hb1 _ _ _ _ _ _ _.
           destruct valid; simpl; right; unfold registered; simpl;
             rewrite Hb1; reflexivity.
      * rewrite (install_outside a s Hw). simpl.
        destruct a as [[|ch a']|]; exact Hw.
  - rewrite install_refused by (left; exact Hw). simpl. left. exact Hw.
Qed.

Lemma run_window (actions : list Action) (s : State) :
  (forall app, window s
     <> Some {| window_MiniKit := false; window_WorldApp := Some app |}) ->
  window (run actions s) = window s.
Proof.
  revert s. induction actions as [|a l IH]; intros s Hs; [reflexivity|].
  change (window (run l (step a s)) = window s).
  destruct (step_window a s) as [Heq|(app & Hw & _)].
  - rewrite IH; [exact Heq|]. rewrite Heq. exact Hs.
  - destruct (Hs app Hw).
Qed.

(** X5.  The outcome of the first [install] settles that of every later one,
    whatever the bridge is used for in between: unless the first call
    reported [OutsideOfWorldApp], every later call reports
    [AlreadyInstalled] and changes nothing, also after a first call that
    failed with [Unknown] or [AppOutOfDate]; after [OutsideOfWorldApp] every
    later call reports [OutsideOfWorldApp] again. *)
Theorem install_outcome_is_final (a a' : option string) (s : State)
    (actions : list Action) :
  let s1 := run actions (snd (install a s)) in
  match fst (install a s) with
  | InstallFailure OutsideOfWorldApp =>
      fst (install a' s1) = InstallFailure OutsideOfWorldApp
  | _ => install a' s1 = (InstallFailure AlreadyInstalled, s1)
  end.
Proof.
  intros s1. pose proof (install_window a s) as Hw.
  destruct (fst (install a s)) as [|[]].
  1-3, 5: (assert (Hkeep : window s1 = window (snd (install a s)));
    [apply run_window; intros app Heq;
     destruct Hw as [Hw|Hw];
     [rewrite Hw in Heq; discriminate
     |unfold registered in Hw; rewrite Heq in Hw; discriminate]
    |apply install_refused; unfold registered; rewrite Hkeep;
     destruct Hw as [Hw|Hw]; [left; exact Hw|right; exact Hw]]).
  assert (Hkeep : window s1 = window (snd (install a s))).
  { apply run_window. intros app Heq. rewrite Hw in Heq. discriminate. }
  rewrite install_outside; [reflexivity|]. rewrite Hkeep. exact Hw.
Qed.

Lemma install_availability (a : option string) (s : State) (c : Command) :
  available c s = true -> available c (snd (install a s)) = true.
Proof.
  intros Hc. destruct (window s) as [[k oapp]|] eqn:Hw.
  - destruct k.
    + rewrite install_refused
        by (right; unfold registered; rewrite Hw; reflexivity).
      exact Hc.
    + destruct oapp as [app|].
      * destruct (transport_throws (InitMessage MINIKIT_VERSION)) eqn:Hsend.
        -- unfold install. rewrite Hw. simpl. unfold sendInit, sendWebviewEvent.
           rewrite Hsend. simpl. destruct a as [[|ch a']|]; exact Hc.
        -- rewrite (install_negotiates a s app Hw Hsend).
           match goal with
           | |- context [commandsValid ?cs ?st] =>
               pose proof (commandsValid_flags cs st c) as Hav;
               assert (Hst : available c st = true)
                 by (destruct a as [[|ch a']|]; exact Hc);
               destruct (commandsValid cs st) as [valid s5]
           end.
           simpl in Hav. rewrite Hst in Hav. simpl in Hav.
           destruct valid; exact Hav.
      * rewrite (install_outside a s Hw). destruct a as [[|ch a']|]; exact Hc.
  - rewrite install_refused by (left; exact Hw). exact Hc.
Qed.

(** X6.  No use of the bridge ever clears an availability flag: a command
    that is available stays available through every later call, event and
    settled promise, a failed or repeated [install] included. *)
Theorem availability_is_never_cleared (c : Command) (actions : list Action)
    (s : State) :
  available c s = true -> available c (run actions s) = true.
Proof.
  revert s. induction actions as [|a l IH]; intros s Hc; [exact Hc|].
  change (available c (run l (step a s)) = true). apply IH.
  assert (Hsame : forall s', installation s' = installation s ->
                             available c s' = true).
  { intros s' Heq. unfold installation in Heq.
    injection Heq as _ Hav _. unfold available. rewrite Hav. exact Hc. }
  destruct a as [a | event id | event | event p | call | call | i]; simpl.
  - apply install_availability, Hc.
  - exact Hc.
  - exact Hc.
  - apply Hsame, trigger_installation.
  - apply Hsame, commands_installation.
  - apply Hsame, commandsAsync_installation.
  - apply Hsame, settle_installation.
Qed.

(** X7.  [isInstalled] after [install], in a window: it answers [true]
    unless [install] reported [OutsideOfWorldApp], so also after an [install]
    that failed with [Unknown] or [AppOutOfDate]; it logs its error exactly
    when it answers [false].  Where there is no window it throws. *)
Theorem isInstalled_after_install (a : option string) (debug : bool) (s : State) :
  isInstalled debug (snd (install a s)) =
  match window s with
  | None => None
  | Some _ =>
      match fst (install a s) with
      | InstallFailure OutsideOfWorldApp =>
          Some (false, (if debug then [LogAlive] else []) ++ [ErrorNotInstalled])
      | _ => Some (true, if debug then [LogAlive] else [])
      end
  end.
Proof.
  pose proof (install_window a s) as Hw.
  destruct (window s) as [w|] eqn:Hs.
  - assert (Hsome : window (snd (install a s)) <> None).
    { destruct (step_window (DoInstall a) s) as [Heq|(app & _ & Heq)];
        simpl in Heq; rewrite Heq; [rewrite Hs|]; discriminate. }
    unfold isInstalled.
    destruct (fst (install a s)) as [|[]];
      try (destruct Hw as [Hw|Hw]; [congruence|];
           unfold registered in Hw;
           destruct (window (snd (install a s))); [|congruence];
           rewrite Hw, app_nil_r; reflexivity).
    rewrite Hw. reflexivity.
  - rewrite install_refused by (left; exact Hs). unfold isInstalled.
    simpl. rewrite Hs. reflexivity.
Qed.

(** X8.  A host that lists a command only at versions the bridge does not
    use is out of date, and the command is available all the same: if every
    command before [c] in the table is supported, [install] reports
    [AppOutOfDate] and the guard of every entry that reads the flag of [c]
    lets the call through. *)
Theorem unsupported_version_is_still_available
    (a : option string) (s : State) (app : WorldApp) (c : Command)
    (commandInput : SupportedCommand) :
  window s = Some {| window_MiniKit := false; window_WorldApp := Some app |} ->
  transport_throws (InitMessage MINIKIT_VERSION) = false ->
  forallb (hostSupports (supported_commands app))
    (take (position c) miniKitCommandVersion_entries) = true ->
  find (fun command => String.eqb (name command) (commandName c))
    (supported_commands app) = Some commandInput ->
  miniKitCommandVersion c ∉ supported_versions commandInput ->
  fst (install a s) = InstallFailure AppOutOfDate /\
  available c (snd (install a s)) = true /\
  forall call, guardFlag call = c -> call_guard call (snd (install a s)) = false.
Proof.
  intros Hw Hsend Hbefore Hfind Hversion.
  rewrite (install_negotiates a s app Hw Hsend).
  match goal with
  | |- context [commandsValid ?cs ?st] =>
      pose proof (commandsValid_flags cs st c) as Hav;
      pose proof (commandsValid_beside cs st) as Hb;
      destruct (fst (commandsValid cs st)) eqn:Hvalid
  end.
  - pose proof (proj1 (commandsValid_result_iff _ _) Hvalid) as Hall.
    destruct (Hall c) as (ci & Hf & Hin). rewrite Hfind in Hf.
    injection Hf as <-. contradiction.
  - unfold hostLists in Hav. rewrite Hfind, Hbefore in Hav. simpl in Hav.
    rewrite orb_true_r in Hav. simpl.
    split; [reflexivity|]. split; [exact Hav|].
    intros call Hcall. unfold call_guard, unavailable. rewrite Hcall, Hav.
    unfold beside_negotiation in Hb. injection Hb as Hb1 _ _ _ _ _ _ _.
    rewrite Hb1. reflexivity.
Qed.

End Installation.

Section Entries.
Context `{Collaborators}.

(** An entry under which the transport throws has changed nothing. *)
Lemma commands_thrown_unchanged (call : CommandCall) (s : State) :
  fst (commands call s) = Thrown -> snd (commands call s) = s.
Proof.
  destruct call; simpl;
    unfold commands_verify, commands_pay, commands_walletAuth,
      commands_sendTransaction, commands_signMessage, commands_signTypedData,
      commands_shareContacts, commands_requestPermission,
      commands_getPermissions, commands_sendHapticFeedback, commands_shareFiles,
      send_and_return, sendMiniKitEvent, sendWebviewEvent;
    repeat match goal with
           | |- context [if ?b then _ else _] => destruct b
           | |- context [match url_protocol ?x with _ => _ end] =>
               destruct (url_protocol x)
           end;
    simpl; intros Ht; first [reflexivity | discriminate Ht].
Qed.

(** X9.  What an entry of [MiniKit.commands] hands to the transport: when it
    returns a payload it has sent exactly one envelope, tagged with its own
    command and version 1 and carrying the returned payload (for
    [getPermissions]: the empty object, the return value being
    [{status: 'sent'}]), and has done nothing else; when it returns [null]
    it has sent nothing; when the transport throws nothing has changed. *)
Theorem entry_sends_what_it_returns (call : CommandCall) (s : State) :
  match commands call s with
  | (Returned (Some result), s') =>
      exists payload,
        s' = record_sent (CommandMessage (commandOf call) 1 payload) s /\
        match call with
        | CallGetPermissions => payload = EmptyPayload /\ result = StatusSent
        | _ => payload = result
        end
  | (Returned None, s') =>
      sent s' = sent s /\ (s' = s \/ exists e, s' = log e s)
  | (Thrown, s') => s' = s
  end.
Proof.
  destruct call; simpl;
    unfold commands_verify, commands_pay, commands_walletAuth,
      commands_sendTransaction, commands_signMessage, commands_signTypedData,
      commands_shareContacts, commands_requestPermission,
      commands_getPermissions, commands_sendHapticFeedback, commands_shareFiles,
      send_and_return, sendMiniKitEvent, sendWebviewEvent;
    repeat match goal with
           | |- context [if ?b then _ else _] => destruct b
           | |- context [match url_protocol ?x with _ => _ end] =>
               destruct (url_protocol x)
           end;
    simpl;
    first [ reflexivity
          | split; [reflexivity|]; first [left; reflexivity | right; eexists; reflexivity]
          | eexists; split; [reflexivity|]; first [reflexivity | split; reflexivity] ].
Qed.

End Entries.

Section AsyncEntries.
Context `{Collaborators}.

(** The state in which the executor of [commandsAsync call] runs: both
    promises allocated, the handler subscribed. *)
Lemma commandsAsync_returned (call : CommandCall) (s : State)
    (result : option CommandReturnPayload) (s' : State) :
  let T := responseEventOf (commandOf call) in
  let cell0 := {| promise_state := PromisePending; resolve_calls := 0;
                  command_payload_slot := None |} in
  let inner := length (promises s ++ [cell0]) in
  commands call
    (subscribe T (HandleAndUnsubscribe T inner)
       (snd (new_promise (snd (new_promise s))))) = (Returned result, s') ->
  commandsAsync call s =
    (length (promises s),
     park (AwaitCommandResponse (commandOf call) inner (length (promises s)))
       (set_promises
          ((promises s ++ [cell0]) ++
           [{| promise_state := PromisePending; resolve_calls := 0;
               command_payload_slot := result |}]) s')) /\
  listeners s' = <[T := wrappedHandler T (HandleAndUnsubscribe T inner)]>
                   (listeners s) /\
  pending s' = pending s /\ calls s' = calls s /\ user s' = user s.
Proof.
  intros T cell0 inner Hexec.
  destruct (awaitCommand_returned T (commandOf call) (commands call) result
              (snd (new_promise s)) s' (commands_frame call) Hexec)
    as (Heq & Hl & Hq & Hc & Hu).
  unfold commandsAsync. simpl in *. fold T. rewrite Heq.
  repeat split; assumption.
Qed.

(** X10.  The asynchronous call style, where the wrapper of the topic passes
    the event on at once (every topic but verify-action and wallet-auth; on
    those, every event that is not an [Orb] success, respectively not a
    success): [commandsAsync] leaves one continuation parked; after one event
    on the command's topic and the settling of that continuation, the
    returned promise is resolved, by one call of [resolve], with the value
    the entry of [commands] returned and the payload of the event,
    unmodified; nothing is left parked and the topic has no handler. *)
Theorem commandsAsync_resolves (call : CommandCall) (s : State)
    (p : EventPayload) :
  (forall e, transport_throws e = false) ->
  let T := responseEventOf (commandOf call) in
  deferred T p = false ->
  let outer := fst (commandsAsync call s) in
  let s1 := snd (commandsAsync call s) in
  let s2 := trigger T p s1 in
  let s3 := settle (length (pending s)) s2 in
  exists result,
    fst (commands call
           (subscribe T (HandleAndUnsubscribe T (S (length (promises s))))
              (snd (new_promise (snd (new_promise s))))))
      = Returned result /\
    promiseState outer s1 = Some PromisePending /\
    pending s1 = pending s ++
      [AwaitCommandResponse (commandOf call) (S (length (promises s))) outer] /\
    promiseState outer s3 =
      Some (PromiseResolved {| commandPayload := result; finalPayload := p |}) /\
    resolveCalls outer s3 = Some 1%nat /\
    pending s3 = pending s /\
    listeners s3 !! T = None.
Proof.
  intros Hsend T Hd outer s1 s2 s3.
  set (cell0 := {| promise_state := PromisePending; resolve_calls := 0;
                   command_payload_slot := None |}).
  assert (Hinner : S (length (promises s)) = length (promises s ++ [cell0])).
  { rewrite length_app. simpl. lia. }
  destruct (commands_return call
              (subscribe T (HandleAndUnsubscribe T (S (length (promises s))))
                 (snd (new_promise (snd (new_promise s))))) Hsend)
    as [result Hres].
  exists result. split; [exact Hres|].
  destruct (commands call _) as [r s'] eqn:Hexec. simpl in Hres. subst r.
  rewrite Hinner in *.
  destruct (commandsAsync_returned call s result s' Hexec)
    as (Heq & Hl & Hq & _ & _).
  fold T cell0 in Heq, Hl.
  pose (final := fun (st : State) =>
          promises st =
            (promises s ++
             [{| promise_state :=
                   PromiseResolved {| commandPayload := result;
                                      finalPayload := p |};
                 resolve_calls := 1; command_payload_slot := None |}]) ++
            [{| promise_state :=
                   PromiseResolved {| commandPayload := result;
                                      finalPayload := p |};
                 resolve_calls := 1; command_payload_slot := result |}] /\
          pending st = pending s /\ listeners st !! T = None).
  assert (Hs1 : promiseState outer s1 = Some PromisePending /\
                pending s1 = pending s ++
                  [AwaitCommandResponse (commandOf call)
                     (length (promises s ++ [cell0])) outer]).
  { unfold outer, s1. rewrite Heq. unfold promiseState, park. simpl.
    rewrite lookup_last_but_one, Hq. split; reflexivity. }
  assert (Hfinal : final s3 /\ outer = length (promises s)).
  { unfold s3, s2, s1, outer. rewrite Heq. simpl.
    split; [|reflexivity].
    destruct s' as [w' av' lis' app' usr' prom' pend' con' snt' cls'].
    simpl in Hl, Hq. subst lis' pend'.
    unfold trigger, park, set_promises, set_pending. simpl.
    rewrite lookup_insert_eq. rewrite (invoke_wrapped_sync _ _ _ _ Hd).
    unfold invoke, unsubscribe, set_listeners, resolve, read_commandPayload,
      set_promises.
    simpl. rewrite !lookup_last. simpl. rewrite !insert_last.
    unfold settle. simpl. rewrite !lookup_last. simpl.
    rewrite !lookup_last. simpl. rewrite delete_last.
    assert (Hresume :
      match commandOf call, status p, verification_level p with
      | Verify, success, Orb => false
      | _, _, _ => true
      end = true).
    { unfold deferred, T in Hd.
      destruct (commandOf call), (status p), (verification_level p);
        simpl in Hd; try reflexivity; discriminate Hd. }
    unfold final.
    destruct (commandOf call), (status p), (verification_level p);
      try discriminate Hresume;
      unfold resolve, set_pending, set_promises; simpl;
      rewrite !lookup_last_but_one; simpl; rewrite !insert_last_but_one;
      (split; [reflexivity|]); (split; [reflexivity|]);
      apply lookup_delete_eq. }
  destruct Hs1 as (Hs1a & Hs1b).
  destruct Hfinal as ((Hp & Hq3 & Hl3) & Houter).
  unfold promiseState, resolveCalls. rewrite Hp, Houter.
  rewrite lookup_last_but_one. simpl.
  unfold promiseState in Hs1a. rewrite <- Houter.
  repeat split; assumption.
Qed.

(** X11.  When the transport throws under an entry of [commands] called
    through [commandsAsync], the returned promise is rejected once the parked
    continuation runs; nothing has been sent, and the handler that
    [awaitCommand] subscribed before calling the entry is still in the
    table. *)
Theorem commandsAsync_rejects_when_transport_throws
    (call : CommandCall) (s : State) :
  let T := responseEventOf (commandOf call) in
  let inner := S (length (promises s)) in
  fst (commands call
         (subscribe T (HandleAndUnsubscribe T inner)
            (snd (new_promise (snd (new_promise s)))))) = Thrown ->
  let outer := fst (commandsAsync call s) in
  let s1 := snd (commandsAsync call s) in
  let s2 := settle (length (pending s)) s1 in
  promiseState outer s1 = Some PromisePending /\
  promiseState outer s2 = Some PromiseRejected /\
  sent s2 = sent s /\
  pending s2 = pending s /\
  listeners s2 !! T = Some (wrappedHandler T (HandleAndUnsubscribe T inner)).
Proof.
  intros T inner Hthrown outer s1 s2.
  pose proof (commands_thrown_unchanged call
                (subscribe T (HandleAndUnsubscribe T inner)
                   (snd (new_promise (snd (new_promise s))))) Hthrown)
    as Hsame.
  set (cell0 := {| promise_state := PromisePending; resolve_calls := 0;
                   command_payload_slot := None |}).
  assert (Hinner : inner = length (promises s ++ [cell0])).
  { unfold inner. rewrite length_app. simpl. lia. }
  pose (final := fun (st1 st2 : State) =>
          promises st1 !! length (promises s) = Some cell0 /\
          promises st2 !! length (promises s)
            = Some {| promise_state := PromiseRejected; resolve_calls := 0;
                      command_payload_slot := None |} /\
          sent st2 = sent s /\ pending st2 = pending s /\
          listeners st2 !! T
            = Some (wrappedHandler T (HandleAndUnsubscribe T inner))).
  assert (Hfinal : final s1 s2 /\ outer = length (promises s)).
  { unfold s2, s1, outer, commandsAsync, awaitCommand. simpl.
    fold T cell0. rewrite <- Hinner.
    destruct (commands call _) as [r s'] eqn:Hexec.
    simpl in Hthrown, Hsame. subst r. subst s'.
    split; [|reflexivity].
    unfold reject, park, subscribe, set_listeners, set_promises, set_pending.
    simpl. rewrite Hinner, !lookup_last. simpl. rewrite !insert_last.
    unfold settle. simpl. rewrite !lookup_last. simpl. unfold cell0.
    rewrite !lookup_last. simpl.
    rewrite delete_last. unfold reject, set_pending, set_promises. simpl.
    rewrite !lookup_last_but_one. simpl. rewrite !insert_last_but_one.
    unfold final. simpl. rewrite !lookup_last_but_one.
    repeat split. fold cell0. rewrite <- Hinner. apply lookup_insert_eq. }
  destruct Hfinal as ((Hp1 & Hp2 & Hsent & Hq & Hl) & ->).
  unfold promiseState. rewrite Hp1, Hp2. repeat split; assumption.
Qed.

(** X12.  [unsubscribe] does not call off a delivery that the wrapper of the
    topic has already parked: after an event held back by the wrapper and a
    following [unsubscribe] of the topic, the caller's handler is still
    called when the wrapper's promise settles (with the re-encoded proof on
    the verify-action topic, with the payload as delivered on the
    wallet-auth topic). *)
Theorem unsubscribe_does_not_cancel_parked_delivery
    (T : ResponseEvent) (id : nat) (p : EventPayload) (s : State) :
  deferred T p = true ->
  let s1 := subscribe T (CallerHandler id) s in
  let s2 := unsubscribe T (trigger T p s1) in
  let s3 := settle (length (pending s)) s2 in
  listeners s2 !! T = None /\
  calls s2 = calls s /\
  calls s3 =
    match T with
    | MiniAppVerifyAction =>
        match compressAndPadProof (proof p) with
        | Some compressedProof => calls s ++ [(id, set_proof compressedProof p)]
        | None => calls s
        end
    | _ => calls s ++ [(id, p)]
    end.
Proof.
  intros Hd s1 s2 s3.
  assert (Hl : listeners s1 !! T = Some (wrappedHandler T (CallerHandler id)))
    by apply lookup_subscribe.
  unfold s3, s2. rewrite (trigger_subscribed _ _ _ _ Hl).
  split; [apply lookup_unsubscribe|].
  unfold deferred in Hd.
  destruct T; try discriminate Hd; simpl in Hd |- *.
  - destruct (status p); try discriminate Hd.
    destruct (verification_level p); try discriminate Hd.
    split; [reflexivity|].
    unfold settle, park. simpl. rewrite lookup_last. simpl.
    destruct (compressAndPadProof (proof p)); reflexivity.
  - destruct (status p); try discriminate Hd.
    split; [reflexivity|].
    unfold settle, park. simpl. rewrite lookup_last. simpl.
    destruct (getUserProfile (address p)); reflexivity.
Qed.

(** X13.  Two wallet-auth successes in flight.  Each handler call waits for
    its own lookup, so the handler sees the events in the order in which the
    lookups settle, not in the order of delivery; and the session context
    ends up with the address and profile of the event whose lookup settled
    last, here the one delivered first. *)
Theorem wallet_auth_last_settled_lookup_wins
    (id : nat) (pA pB : EventPayload) (profileA profileB : UserProfile)
    (s : State) :
  status pA = success -> status pB = success ->
  getUserProfile (address pA) = Some profileA ->
  getUserProfile (address pB) = Some profileB ->
  let s1 := subscribe MiniAppWalletAuth (CallerHandler id) s in
  let s2 := trigger MiniAppWalletAuth pB (trigger MiniAppWalletAuth pA s1) in
  let n := length (pending s) in
  let s3 := settle n (settle (S n) s2) in
  walletAddress (user s2) = Some (address pB) /\
  calls s2 = calls s /\
  calls s3 = calls s ++ [(id, pB); (id, pA)] /\
  walletAddress (user s3) = Some (address pA) /\
  username (user s3) = profile_username profileA /\
  profilePictureUrl (user s3) = profile_picture_url profileA /\
  pending s3 = pending s.
Proof.
  intros HsA HsB HA HB s1 s2 n s3.
  pose (final := fun (st2 st3 : State) =>
          walletAddress (user st2) = Some (address pB) /\
          calls st2 = calls s /\
          calls st3 = (calls s ++ [(id, pB)]) ++ [(id, pA)] /\
          walletAddress (user st3) = Some (address pA) /\
          username (user st3) = profile_username profileA /\
          profilePictureUrl (user st3) = profile_picture_url profileA /\
          pending st3 = pending s).
  assert (Hfinal : final s2 s3).
  { unfold s3, s2, s1, n, trigger, subscribe. simpl.
    rewrite lookup_insert_eq. simpl. rewrite HsA. simpl.
    rewrite lookup_insert_eq. simpl. rewrite HsB.
    unfold park, set_pending, set_walletAddress, set_user, set_listeners. simpl.
    unfold settle at 2. simpl. rewrite lookup_last2. simpl.
    rewrite delete_last2, HB.
    unfold set_pending, merge_user, set_user, invoke, record_call. simpl.
    unfold settle. simpl. rewrite lookup_last. simpl.
    rewrite delete_last, HA. unfold final. simpl. repeat split. }
  destruct Hfinal as (H1 & H2 & H3 & H4 & H5 & H6 & H7).
  rewrite <- app_assoc in H3. repeat split; assumption.
Qed.

(** X14.  Two calls of [awaitCommand] on one topic: the second takes the
    slot of the first.  The next event on the topic (one the wrapper passes
    on at once) resolves the promise of the second call only; the promise of
    the first call is still pending, its [resolve] has not been called, and
    with the slot empty again a further event resolves nothing. *)
Theorem awaitCommand_second_call_takes_the_slot
    (T : ResponseEvent) (c1 c2 : Command)
    (e1 e2 : State -> Completion * State)
    (r1 r2 : option CommandReturnPayload) (s sA sB : State) (p : EventPayload) :
  executor_frame e1 -> executor_frame e2 ->
  let pid1 := length (promises s) in
  e1 (subscribe T (HandleAndUnsubscribe T pid1) (snd (new_promise s)))
    = (Returned r1, sA) ->
  let s1 := snd (awaitCommand T c1 e1 s) in
  let pid2 := length (promises s1) in
  e2 (subscribe T (HandleAndUnsubscribe T pid2) (snd (new_promise s1)))
    = (Returned r2, sB) ->
  let s2 := snd (awaitCommand T c2 e2 s1) in
  deferred T p = false ->
  let s3 := trigger T p s2 in
  fst (awaitCommand T c1 e1 s) = pid1 /\
  fst (awaitCommand T c2 e2 s1) = pid2 /\
  pid2 = S pid1 /\
  promiseState pid2 s3 =
    Some (PromiseResolved {| commandPayload := r2; finalPayload := p |}) /\
  promiseState pid1 s3 = Some PromisePending /\
  resolveCalls pid1 s3 = Some 0%nat /\
  listeners s3 !! T = None /\
  forall p', trigger T p' s3 = log (ErrorNoHandler T p') s3.
Proof.
  intros Hf1 Hf2 pid1 He1 s1 pid2 He2 s2 Hd s3.
  destruct (awaitCommand_returned T c1 e1 r1 s sA Hf1 He1)
    as (Heq1 & Hl1 & _).
  assert (Hs1 : s1 = set_promises
            (promises s ++ [{| promise_state := PromisePending;
                               resolve_calls := 0;
                               command_payload_slot := r1 |}]) sA).
  { unfold s1. rewrite Heq1. reflexivity. }
  destruct (awaitCommand_returned T c2 e2 r2 s1 sB Hf2 He2)
    as (Heq2 & Hl2 & _).
  assert (Hpid2 : pid2 = S pid1).
  { unfold pid2, pid1. rewrite Hs1. simpl. rewrite length_app. simpl. lia. }
  split; [rewrite Heq1; reflexivity|]. split; [rewrite Heq2; reflexivity|].
  split; [exact Hpid2|].
  set (cell1 := {| promise_state := PromisePending; resolve_calls := 0;
                   command_payload_slot := r1 |}) in *.
  set (cell2 := {| promise_state := PromisePending; resolve_calls := 0;
                   command_payload_slot := r2 |}) in *.
  assert (Hp1 : promises s1 = promises s ++ [cell1])
    by (rewrite Hs1; reflexivity).
  assert (Hs2 : s2 = set_promises (promises s1 ++ [cell2]) sB).
  { unfold s2. rewrite Heq2. reflexivity. }
  assert (Hl : listeners s2 !! T
               = Some (wrappedHandler T (HandleAndUnsubscribe T pid2))).
  { rewrite Hs2. simpl. rewrite Hl2. apply lookup_insert_eq. }
  assert (Hs3 : s3 = set_promises
            (promises s1 ++
             [resolved_cell cell2 {| commandPayload := r2; finalPayload := p |}])
            (unsubscribe T s2)).
  { unfold s3. rewrite (trigger_subscribed _ _ _ _ Hl).
    rewrite (invoke_wrapped_sync _ _ _ _ Hd).
    apply (invoke_handleAndUnsubscribe T p s2 (promises s1) cell2).
    rewrite Hs2. reflexivity. }
  assert (Hnone : listeners s3 !! T = None).
  { rewrite Hs3. simpl. apply lookup_delete_eq. }
  split.
  { unfold promiseState. rewrite Hs3. simpl. unfold pid2.
    rewrite lookup_last. reflexivity. }
  assert (Hcell1 : promises s3 !! pid1 = Some cell1).
  { rewrite Hs3. simpl. rewrite Hp1. unfold pid1.
    apply lookup_last_but_one. }
  unfold promiseState, resolveCalls. rewrite Hcell1.
  repeat split; try assumption.
  intros p'. apply trigger_unsubscribed, Hnone.
Qed.

(** X15.  [commandsAsync.verify] and an [Orb] success whose proof cannot be
    re-encoded.  If the re-encoding in the wrapper of the topic rejects, the
    handler of [awaitCommand] is never called: the returned promise stays
    pending, the handler stays subscribed and the continuation of
    [commandsAsync.verify] can never run.  If the wrapper's re-encoding
    succeeds and the one in [commandsAsync.verify] rejects, the returned
    promise is rejected. *)
Theorem commandsAsync_verify_failed_reencoding
    (input : VerifyCommandInput) (s : State) (p : EventPayload) :
  (forall e, transport_throws e = false) ->
  status p = success ->
  verification_level p = Orb ->
  let outer := fst (commandsAsync (CallVerify input) s) in
  let inner := S (length (promises s)) in
  let s1 := snd (commandsAsync (CallVerify input) s) in
  let n := length (pending s) in
  let s3 := settle (S n) (trigger MiniAppVerifyAction p s1) in
  let s5 := settle n (settle n s3) in
  outer = length (promises s) /\
  (compressAndPadProof (proof p) = None ->
     promiseState outer s3 = Some PromisePending /\
     promiseState inner s3 = Some PromisePending /\
     listeners s3 !! MiniAppVerifyAction
       = Some (VerifyActionWrapped
                 (HandleAndUnsubscribe MiniAppVerifyAction inner)) /\
     pending s3 = pending s ++ [AwaitCommandResponse Verify inner outer] /\
     settle n s3 = s3) /\
  (forall once,
     compressAndPadProof (proof p) = Some once ->
     compressAndPadProof once = None ->
     promiseState outer s5 = Some PromiseRejected /\
     pending s5 = pending s /\
     listeners s5 !! MiniAppVerifyAction = None).
Proof.
  intros Hsend Hs Hv outer inner s1 n s3 s5.
  set (cell0 := {| promise_state := PromisePending; resolve_calls := 0;
                   command_payload_slot := None |}).
  assert (Hinner : inner = length (promises s ++ [cell0])).
  { unfold inner. rewrite length_app. simpl. lia. }
  destruct (commands_return (CallVerify input)
              (subscribe MiniAppVerifyAction
                 (HandleAndUnsubscribe MiniAppVerifyAction inner)
                 (snd (new_promise (snd (new_promise s))))) Hsend)
    as [result Hres].
  destruct (commands (CallVerify input) _) as [r s'] eqn:Hexec.
  simpl in Hres. subst r. rewrite Hinner in Hexec.
  destruct (commandsAsync_returned (CallVerify input) s result s' Hexec)
    as (Heq & Hl & Hq & _ & _).
  fold cell0 in Heq, Hl. simpl in Heq, Hl.
  assert (Houter : outer = length (promises s)).
  { unfold outer. rewrite Heq. reflexivity. }
  split; [exact Houter|].
  destruct s' as [w' av' lis' app' usr' prom' pend' con' snt' cls'].
  simpl in Hl, Hq. subst lis' pend'. clear Hexec.
  split.
  - intros Hnone.
    pose (final := fun (st : State) =>
            promises st =
              (promises s ++ [cell0]) ++
              [{| promise_state := PromisePending; resolve_calls := 0;
                  command_payload_slot := result |}] /\
            listeners st !! MiniAppVerifyAction
              = Some (VerifyActionWrapped
                        (HandleAndUnsubscribe MiniAppVerifyAction
                           (length (promises s ++ [cell0])))) /\
            pending st = pending s ++
              [AwaitCommandResponse Verify (length (promises s ++ [cell0]))
                 (length (promises s))] /\
            settle (length (pending s)) st = st).
    assert (Hfinal : final s3).
    { unfold s3, s1, n. rewrite Heq. simpl.
      unfold trigger, park, set_promises, set_pending. simpl.
      rewrite lookup_insert_eq. simpl. rewrite Hs, Hv.
      unfold park, set_pending. simpl.
      unfold settle at 1. simpl. rewrite lookup_last2. simpl.
      rewrite delete_last2, Hnone. unfold set_pending. simpl.
      unfold final. simpl.
      split; [reflexivity|]. split; [apply lookup_insert_eq|].
      split; [reflexivity|].
      unfold settle. simpl. rewrite lookup_last. simpl.
      rewrite lookup_last. simpl. reflexivity. }
    destruct Hfinal as (Hp & Hl3 & Hq3 & Hstuck).
    unfold promiseState. rewrite Hp, Houter, Hinner.
    rewrite lookup_last_but_one, lookup_last. simpl.
    repeat split; assumption.
  - intros once Hc1 Hc2.
    pose (final := fun (st : State) =>
            promises st !! length (promises s)
              = Some {| promise_state := PromiseRejected; resolve_calls := 0;
                        command_payload_slot := None |} /\
            pending st = pending s /\
            listeners st !! MiniAppVerifyAction = None).
    assert (Hfinal : final s5).
    { unfold s5, s3, s1, n. rewrite Heq. simpl.
      unfold trigger, park, set_promises, set_pending. simpl.
      rewrite lookup_insert_eq. simpl. rewrite Hs, Hv.
      unfold park, set_pending. simpl.
      unfold settle at 3. simpl. rewrite lookup_last2. simpl.
      rewrite delete_last2, Hc1.
      unfold set_pending, invoke, unsubscribe, set_listeners, resolve,
        read_commandPayload, set_promises.
      simpl. rewrite !lookup_last. simpl. rewrite !insert_last.
      unfold settle at 2. simpl. rewrite !lookup_last. simpl.
      rewrite !lookup_last. simpl.
      rewrite Hs, Hv, delete_last. unfold park, set_pending. simpl.
      unfold settle. simpl. rewrite !lookup_last. simpl.
      rewrite Hc2, delete_last. unfold reject, set_pending, set_promises. simpl.
      rewrite !lookup_last_but_one. simpl. rewrite !insert_last_but_one.
      unfold final. simpl. rewrite lookup_last_but_one.
      repeat split. apply lookup_delete_eq. }
    destruct Hfinal as (Hp & Hq5 & Hl5).
    unfold promiseState. rewrite Houter, Hp. repeat split; assumption.
Qed.

End AsyncEntries.

Section Bus.
Context `{Collaborators}.

Lemma unsubscribes_only_exists (h : Handler) :
  exists event, unsubscribes_only event h.
Proof.
  induction h as [| id | event pid | h IH | h IH]; simpl;
    try (exists MiniAppPayment; exact I); try exact IH.
  exists event. reflexivity.
Qed.

(** A handler only ever writes to the table by unsubscribing its topic. *)
Lemma invoke_listeners (event : ResponseEvent) (h : Handler)
    (p : EventPayload) (s : State) :
  unsubscribes_only event h ->
  listeners (invoke h p s) = listeners s \/
  listeners (invoke h p s) = delete event (listeners s).
Proof.
  revert s. induction h as [| id | event' pid | h IH | h IH]; intros s Hu;
    simpl in *.
  - left. reflexivity.
  - left. reflexivity.
  - right. subst event'. unfold resolve. simpl.
    destruct (promises s !! pid); reflexivity.
  - destruct (status p); [left; reflexivity|apply IH, Hu].
  - destruct (status p); [|apply IH, Hu].
    destruct (verification_level p); [left; reflexivity|apply IH, Hu].
Qed.

Lemma bus_consistent_delete (event : ResponseEvent) (s s' : State) :
  bus_consistent s ->
  listeners s' = listeners s \/ listeners s' = delete event (listeners s) ->
  bus_consistent s'.
Proof.
  intros Hc [Heq|Heq] e h; rewrite Heq; [apply Hc|].
  intros Hl. apply lookup_delete_Some in Hl as [_ Hl]. exact (Hc e h Hl).
Qed.

Lemma bus_consistent_insert (event : ResponseEvent) (h : Handler) (s s' : State) :
  bus_consistent s -> unsubscribes_only event h ->
  listeners s' = <[event := h]> (listeners s) ->
  bus_consistent s'.
Proof.
  intros Hc Hh Heq e h'. rewrite Heq. intros Hl.
  apply lookup_insert_Some in Hl as [[<- <-]|[_ Hl]]; [exact Hh|].
  exact (Hc e h' Hl).
Qed.

Lemma install_listeners (a : option string) (s : State) :
  listeners (snd (install a s)) = listeners s.
Proof.
  destruct (window s) as [[k oapp]|] eqn:Hw.
  - destruct k.
    + rewrite install_refused
        by (right; unfold registered; rewrite Hw; reflexivity).
      reflexivity.
    + destruct oapp as [app|].
      * destruct (transport_throws (InitMessage MINIKIT_VERSION)) eqn:Hsend.
        -- unfold install. rewrite Hw. simpl. unfold sendInit, sendWebviewEvent.
           rewrite Hsend. simpl. destruct a as [[|ch a']|]; reflexivity.
        -- rewrite (install_negotiates a s app Hw Hsend).
           match goal with
           | |- context [commandsValid ?cs ?st] =>
               pose proof (commandsValid_beside cs st) as Hb;
               destruct (commandsValid cs st) as [valid s5]
           end.
           unfold beside_negotiation in Hb. simpl in Hb.
           injection Hb as _ Hb2 _ _ _ _ _ _.
           destruct valid; simpl; rewrite Hb2;
             destruct a as [[|ch a']|]; reflexivity.
      * rewrite (install_outside a s Hw). destruct a as [[|ch a']|]; reflexivity.
  - rewrite install_refused by (left; exact Hw). reflexivity.
Qed.

Lemma settle_listeners (i : nat) (s : State) :
  listeners (settle i s) = listeners s \/
  exists event, listeners (settle i s) = delete event (listeners s).
Proof.
  unfold settle. destruct (pending s !! i) as [t|]; [|left; reflexivity].
  destruct (ready t s); [|left; reflexivity].
  destruct t as [p h | p h | command inner outer | response outer]; simpl.
  - destruct (unsubscribes_only_exists h) as [event Hh].
    match goal with
    | |- context [invoke h p ?st] =>
        destruct (invoke_listeners event h p st Hh) as [Heq|Heq];
        rewrite Heq
    end;
    destruct (getUserProfile (address p)); simpl;
      first [left; reflexivity | right; exists event; reflexivity].
  - destruct (compressAndPadProof (proof p)); [|left; reflexivity].
    destruct (unsubscribes_only_exists h) as [event Hh].
    match goal with
    | |- context [invoke h ?q ?st] =>
        destruct (invoke_listeners event h q st Hh) as [Heq|Heq];
        rewrite Heq
    end;
    first [left; reflexivity | right; exists event; reflexivity].
  - left.
    destruct (promise_state <$> promises s !! inner) as [[| response |]|];
      try reflexivity.
    + destruct command; try (unfold resolve; simpl;
        destruct (promises s !! outer); reflexivity).
      destruct (status (finalPayload response));
        [destruct (verification_level (finalPayload response))|];
        try reflexivity;
        unfold resolve; simpl; destruct (promises s !! outer); reflexivity.
    + unfold reject. simpl. destruct (promises s !! outer); reflexivity.
  - left. destruct (compressAndPadProof (proof (finalPayload response)));
      [unfold resolve|unfold reject]; simpl;
      destruct (promises s !! outer); reflexivity.
Qed.

Lemma commandsAsync_listeners (call : CommandCall) (s : State) :
  let T := responseEventOf (commandOf call) in
  listeners (snd (commandsAsync call s)) =
  <[T := wrappedHandler T (HandleAndUnsubscribe T (S (length (promises s))))]>
    (listeners s).
Proof.
  intros T. unfold commandsAsync, awaitCommand, new_promise. simpl.
  rewrite length_app. simpl. rewrite Nat.add_1_r. fold T.
  match goal with
  | |- context [commands call ?st] =>
      destruct (commands_frame call st) as (Hl & _);
      destruct (commands call st) as [r s'] eqn:E
  end.
  simpl in Hl. destruct r; simpl.
  - unfold assign_commandPayload. destruct (promises s' !! _); simpl; exact Hl.
  - unfold reject. destruct (promises s' !! _); simpl; exact Hl.
Qed.

Lemma wrappedHandler_unsubscribes_only (event : ResponseEvent) (h : Handler) :
  unsubscribes_only event h -> unsubscribes_only event (wrappedHandler event h).
Proof. destruct event; simpl; intros Hh; exact Hh. Qed.

Lemma step_bus_consistent (a : Action) (s : State) :
  bus_consistent s -> bus_consistent (step a s).
Proof.
  intros Hc.
  destruct a as [a | event id | event | event p | call | call | i]; simpl.
  - apply (bus_consistent_delete MiniAppPayment s); [exact Hc|].
    left. apply install_listeners.
  - apply (bus_consistent_insert event
             (wrappedHandler event (CallerHandler id)) s); [exact Hc| |reflexivity].
    apply wrappedHandler_unsubscribes_only. exact I.
  - apply (bus_consistent_delete event s); [exact Hc|]. right. reflexivity.
  - unfold trigger. destruct (listeners s !! event) as [h|] eqn:Hl.
    + apply (bus_consistent_delete event s); [exact Hc|].
      apply invoke_listeners. exact (Hc event h Hl).
    + apply (bus_consistent_delete event s); [exact Hc|]. left. reflexivity.
  - apply (bus_consistent_delete MiniAppPayment s); [exact Hc|].
    left. apply commands_frame.
  - eapply bus_consistent_insert; [exact Hc| |apply commandsAsync_listeners].
    apply wrappedHandler_unsubscribes_only. reflexivity.
  - destruct (settle_listeners i s) as [Heq|[event Heq]].
    + apply (bus_consistent_delete MiniAppPayment s); [exact Hc|]. left. exact Heq.
    + apply (bus_consistent_delete event s); [exact Hc|]. right. exact Heq.
Qed.

Lemma run_bus_consistent (actions : list Action) (s : State) :
  bus_consistent s -> bus_consistent (run actions s).
Proof.
  revert s. induction actions as [|a l IH]; intros s Hc; [exact Hc|].
  change (bus_consistent (run l (step a s))).
  apply IH, step_bus_consistent, Hc.
Qed.

Lemma initialState_bus_consistent (w : option Window) :
  bus_consistent (initialState w).
Proof.
  intros event h Hl.
  assert (Hn : listeners (initialState w) !! event = Some NoopHandler)
    by (destruct event; vm_compute; reflexivity).
  rewrite Hn in Hl. injection Hl as <-. exact I.
Qed.

(** X16.  Topics do not interfere.  In every state the bridge can reach from
    the class as loaded (by installs, subscriptions of caller handlers,
    unsubscriptions, events, command calls in either style and settled
    promises), an event on one topic leaves the slot of every other topic
    as it is; on its own topic it leaves the handler in place or removes
    it (the handler of [awaitCommand] unsubscribes itself) and never
    replaces it. *)
Theorem events_do_not_disturb_other_topics
    (w : option Window) (actions : list Action)
    (T T' : ResponseEvent) (p : EventPayload) :
  let s := run actions (initialState w) in
  (T <> T' -> listeners (trigger T' p s) !! T = listeners s !! T) /\
  (listeners (trigger T' p s) !! T' = listeners s !! T' \/
   listeners (trigger T' p s) !! T' = None).
Proof.
  intros s.
  assert (Hc : bus_consistent s)
    by apply run_bus_consistent, initialState_bus_consistent.
  assert (Hl : listeners (trigger T' p s) = listeners s \/
               listeners (trigger T' p s) = delete T' (listeners s)).
  { unfold trigger. destruct (listeners s !! T') as [h|] eqn:Hh.
    - apply invoke_listeners. exact (Hc T' h Hh).
    - left. reflexivity. }
  split.
  - intros Hne. destruct Hl as [->| ->]; [reflexivity|].
    apply lookup_delete_ne. congruence.
  - destruct Hl as [->| ->]; [left; reflexivity|].
    right. apply lookup_delete_eq.
Qed.

End Bus.

Section EarlierSnapshot.
Context `{Collaborators}.

(** X17.  The preceding snapshot's wallet-auth wrapper.  The caller's
    handler is called inside [trigger], before the profile lookup has
    settled, so two events reach it in the order of delivery; the static
    [walletAddress] is that of the event delivered last, while [user] is
    replaced as a whole by each lookup that succeeds and so ends up with the
    address and profile of the lookup that settled last: after two successes
    whose lookups settle in reverse order the two fields name different
    addresses.  A lookup that fails changes nothing and logs nothing. *)
Theorem earlier_wallet_auth_fields_can_disagree
    (id : nat) (pA pB : EventPayload) (profileA : UserProfile)
    (s : Earlier.State) :
  status pA = success -> status pB = success ->
  getUserProfile (address pA) = Some profileA ->
  let s1 := Earlier.subscribe MiniAppWalletAuth (Earlier.CallerHandler id) s in
  let s2 := Earlier.trigger MiniAppWalletAuth pB
              (Earlier.trigger MiniAppWalletAuth pA s1) in
  let n := length (Earlier.lookups s) in
  let s3 := Earlier.settle n (Earlier.settle (S n) s2) in
  Earlier.calls s2 = Earlier.calls s ++ [(id, pA); (id, pB)] /\
  Earlier.user s2 = Earlier.user s /\
  Earlier.calls s3 = Earlier.calls s2 /\
  Earlier.walletAddress s3 = Some (address pB) /\
  Earlier.user s3 =
    Some {| Earlier.user_username := profile_username profileA;
            Earlier.user_profilePictureUrl := profile_picture_url profileA;
            Earlier.user_walletAddress := address pA |} /\
  Earlier.lookups s3 = Earlier.lookups s /\
  Earlier.console s3 = Earlier.console s /\
  (getUserProfile (address pB) = None ->
   Earlier.user (Earlier.settle (S n) s2) = Earlier.user s /\
   Earlier.console (Earlier.settle (S n) s2) = Earlier.console s).
Proof.
  intros HsA HsB HA s1 s2 n s3.
  pose (final := fun (st2 st3' st3 : Earlier.State) =>
          Earlier.calls st2 = (Earlier.calls s ++ [(id, pA)]) ++ [(id, pB)] /\
          Earlier.user st2 = Earlier.user s /\
          Earlier.calls st3 = Earlier.calls st2 /\
          Earlier.walletAddress st3 = Some (address pB) /\
          Earlier.user st3 =
            Some {| Earlier.user_username := profile_username profileA;
                    Earlier.user_profilePictureUrl :=
                      profile_picture_url profileA;
                    Earlier.user_walletAddress := address pA |} /\
          Earlier.lookups st3 = Earlier.lookups s /\
          Earlier.console st3 = Earlier.console s /\
          (getUserProfile (address pB) = None ->
           Earlier.user st3' = Earlier.user s /\
           Earlier.console st3' = Earlier.console s)).
  assert (Hfinal : final s2 (Earlier.settle (S n) s2) s3).
  { unfold s3, s2, s1, n, Earlier.trigger, Earlier.subscribe. simpl.
    rewrite lookup_insert_eq. simpl. rewrite HsA. simpl.
    rewrite lookup_insert_eq. simpl. rewrite HsB. simpl.
    unfold Earlier.settle at 1 3. simpl. rewrite !lookup_last2. simpl.
    rewrite !delete_last2.
    unfold Earlier.settle. simpl. rewrite lookup_last. simpl.
    rewrite delete_last, HA. unfold final. simpl.
    do 7 (split; [reflexivity|]). intros Hn. rewrite Hn. split; reflexivity. }
  destruct Hfinal as (H1 & H2 & H3 & H4 & H5 & H6 & H7 & H8).
  rewrite <- app_assoc in H1. repeat split; try assumption; apply H8; assumption.
Qed.

End EarlierSnapshot.

(** * The further properties on explicit inputs *)

Section FurtherScenarios.
Local Existing Instance sampleCollaborators.

Lemma install_success_state_witness :
  sent installedState = [InitMessage 1] /\
  available ShareFiles installedState = true /\
  isInstalled false installedState = Some (true, []).
Proof.
  destruct (install_success_state (Some "app_1")
              (initialState (windowWith (Some (hostAdvertising allCommands)))))
    as (app & _ & Hav & _ & Hinst & Hsent & _).
  - vm_compute. reflexivity.
  - split; [exact Hsent|]. split; [exact (Hav ShareFiles)|exact Hinst].
Defined.

Lemma availability_is_never_cleared_witness :
  available Pay
    (run [DoUnsubscribe MiniAppPayment; DoInstall None;
          DoTrigger MiniAppPayment errorPayload; DoCommand CallGetPermissions]
       installedState) = true.
Proof. apply availability_is_never_cleared. vm_compute. reflexivity. Defined.

Lemma unsupported_version_is_still_available_witness :
  fst (install (Some "app_1")
         (initialState (windowWith (Some hostWithVerifyAtVersion2))))
    = InstallFailure AppOutOfDate /\
  available Verify
    (snd (install (Some "app_1")
            (initialState (windowWith (Some hostWithVerifyAtVersion2)))))
    = true.
Proof.
  destruct (unsupported_version_is_still_available (Some "app_1")
              (initialState (windowWith (Some hostWithVerifyAtVersion2)))
              hostWithVerifyAtVersion2 Verify
              {| name := "verify"; supported_versions := [2] |})
    as (Hout & Hav & _).
  - reflexivity.
  - reflexivity.
  - reflexivity.
  - reflexivity.
  - simpl. rewrite list_elem_of_In. simpl. intros [Heq|[]]. discriminate Heq.
  - split; [exact Hout|exact Hav].
Defined.

Lemma commandsAsync_resolves_witness :
  promiseState (fst (commandsAsync (CallSignMessage "hello") installedState))
    (settle 0
       (trigger MiniAppSignMessage errorPayload
          (snd (commandsAsync (CallSignMessage "hello") installedState))))
  = Some (PromiseResolved
            {| commandPayload := Some (InputPayload "hello");
               finalPayload := errorPayload |}).
Proof.
  assert (Hsend : forall e, transport_throws e = false)
    by (intros e; reflexivity).
  destruct (commandsAsync_resolves (CallSignMessage "hello") installedState
              errorPayload Hsend eq_refl)
    as (result & Hres & _ & _ & Hp & _).
  vm_compute in Hres. injection Hres as <-. exact Hp.
Defined.

Lemma unsubscribe_does_not_cancel_parked_delivery_witness :
  calls (settle 0
           (unsubscribe MiniAppVerifyAction
              (trigger MiniAppVerifyAction orbSuccess
                 (subscribe MiniAppVerifyAction (CallerHandler 1) browserState))))
  = [(1%nat, set_proof "c0x01" orbSuccess)].
Proof.
  destruct (unsubscribe_does_not_cancel_parked_delivery MiniAppVerifyAction 1
              orbSuccess browserState eq_refl) as (_ & _ & Hcalls).
  exact Hcalls.
Defined.

Lemma wallet_auth_last_settled_lookup_wins_witness :
  walletAddress
    (user (settle 0 (settle 1
       (trigger MiniAppWalletAuth authSuccessB
          (trigger MiniAppWalletAuth orbSuccess
             (subscribe MiniAppWalletAuth (CallerHandler 1) browserState))))))
  = Some "0xA".
Proof.
  destruct (wallet_auth_last_settled_lookup_wins 1 orbSuccess authSuccessB
              {| profile_username := Some "u0xA"; profile_picture_url := None |}
              {| profile_username := Some "u0xB"; profile_picture_url := None |}
              browserState)
    as (_ & _ & _ & Hw & _); [reflexivity..|].
  exact Hw.
Defined.

Lemma awaitCommand_second_call_takes_the_slot_witness :
  promiseState 0
    (trigger MiniAppSignMessage errorPayload
       (snd (awaitCommand MiniAppSignMessage SignMessage
               (commands (CallSignMessage "second"))
               (snd (awaitCommand MiniAppSignMessage SignMessage
                       (commands (CallSignMessage "first")) installedState)))))
  = Some PromisePending.
Proof.
  pose (s1 := snd (awaitCommand MiniAppSignMessage SignMessage
                     (commands (CallSignMessage "first")) installedState)).
  destruct (awaitCommand_second_call_takes_the_slot MiniAppSignMessage
              SignMessage SignMessage
              (commands (CallSignMessage "first"))
              (commands (CallSignMessage "second"))
              (Some (InputPayload "first")) (Some (InputPayload "second"))
              installedState
              (snd (commands (CallSignMessage "first")
                      (subscribe MiniAppSignMessage
                         (HandleAndUnsubscribe MiniAppSignMessage 0)
                         (snd (new_promise installedState)))))
              (snd (commands (CallSignMessage "second")
                      (subscribe MiniAppSignMessage
                         (HandleAndUnsubscribe MiniAppSignMessage 1)
                         (snd (new_promise s1)))))
              errorPayload (commands_frame _) (commands_frame _))
    as (_ & _ & _ & _ & Hfirst & _).
  - vm_compute. reflexivity.
  - vm_compute. reflexivity.
  - reflexivity.
  - exact Hfirst.
Defined.

Lemma events_do_not_disturb_other_topics_witness :
  listeners
    (trigger MiniAppPayment errorPayload
       (run [DoSubscribe MiniAppSignMessage 1;
             DoCommandAsync CallGetPermissions]
          (initialState (windowWith None))))
    !! MiniAppSignMessage = Some (CallerHandler 1).
Proof.
  destruct (events_do_not_disturb_other_topics (windowWith None)
              [DoSubscribe MiniAppSignMessage 1;
               DoCommandAsync CallGetPermissions]
              MiniAppSignMessage MiniAppPayment errorPayload) as (Hother & _).
  rewrite Hother; [|discriminate]. vm_compute. reflexivity.
Defined.

Lemma earlier_wallet_auth_fields_can_disagree_witness :
  Earlier.walletAddress
    (Earlier.settle 0 (Earlier.settle 1
       (Earlier.trigger MiniAppWalletAuth authSuccessB
          (Earlier.trigger MiniAppWalletAuth orbSuccess
             (Earlier.subscribe MiniAppWalletAuth (Earlier.CallerHandler 1)
                earlierInitial))))) = Some "0xB" /\
  Earlier.user_walletAddress <$>
    Earlier.user
      (Earlier.settle 0 (Earlier.settle 1
         (Earlier.trigger MiniAppWalletAuth authSuccessB
            (Earlier.trigger MiniAppWalletAuth orbSuccess
               (Earlier.subscribe MiniAppWalletAuth (Earlier.CallerHandler 1)
                  earlierInitial))))) = Some "0xA".
Proof.
  destruct (earlier_wallet_auth_fields_can_disagree 1 orbSuccess authSuccessB
              {| profile_username := Some "u0xA"; profile_picture_url := None |}
              earlierInitial)
    as (_ & _ & _ & Hw & Hu & _); [reflexivity..|].
  split; [exact Hw|]. exact (f_equal (fmap Earlier.user_walletAddress) Hu).
Defined.

End FurtherScenarios.

Section ThrowingScenarios.
Local Existing Instance throwingTransport.

Lemma commandsAsync_rejects_when_transport_throws_witness :
  promiseState (fst (commandsAsync (CallSignMessage "hello") throwingInstalled))
    (settle 0 (snd (commandsAsync (CallSignMessage "hello") throwingInstalled)))
  = Some PromiseRejected.
Proof.
  destruct (commandsAsync_rejects_when_transport_throws
              (CallSignMessage "hello") throwingInstalled)
    as (_ & Hrejected & _).
  - vm_compute. reflexivity.
  - exact Hrejected.
Defined.

End ThrowingScenarios.

Section RejectingScenarios.
Local Existing Instance rejectingCompression.

Lemma commandsAsync_verify_failed_reencoding_witness :
  promiseState (fst (commandsAsync (CallVerify verifyInput) browserState))
    (settle 1
       (trigger MiniAppVerifyAction orbSuccess2
          (snd (commandsAsync (CallVerify verifyInput) browserState))))
    = Some PromisePending /\
  promiseState (fst (commandsAsync (CallVerify verifyInput) browserState))
    (settle 0 (settle 0 (settle 1
       (trigger MiniAppVerifyAction orbSuccess
          (snd (commandsAsync (CallVerify verifyInput) browserState))))))
    = Some PromiseRejected.
Proof.
  assert (Hsend : forall e, transport_throws e = false)
    by (intros e; reflexivity).
  split.
  - destruct (commandsAsync_verify_failed_reencoding verifyInput browserState
                orbSuccess2 Hsend eq_refl eq_refl) as (_ & Hnone & _).
    exact (proj1 (Hnone eq_refl)).
  - destruct (commandsAsync_verify_failed_reencoding verifyInput browserState
                orbSuccess Hsend eq_refl eq_refl) as (_ & _ & Hsecond).
    exact (proj1 (Hsecond "c0x01" eq_refl eq_refl)).
Defined.

End RejectingScenarios.
